(** * ndvi-gee: the geometry and orchestration of [src/ndvi.ts]

    [ndviGen] authenticates against Earth Engine and then runs
    [runAnalysis], which derives a bounding box, output dimensions and a
    centroid from the caller's polygon, issues the image query and
    assembles the result record.  [get_polygon_centroid] is the shoelace
    centroid anchored at the first vertex.

    The TypeScript [number] is IEEE-754 binary64; it is embedded as Rocq's
    primitive [float].  The arithmetic the file uses is collected in the
    class [JsNumber], so that the same program text is also available over
    exact rationals, where rounding plays no part. *)

From Stdlib Require Import String ZArith List Bool Lia.
From Stdlib Require Uint63.
From Stdlib Require Import Floats.
From Stdlib Require Import QArith Qround Lqa.
Import ListNotations.

Close Scope Q_scope.
Open Scope nat_scope.

(** ** The arithmetic of [number] *)

Class JsNumber (num : Type) : Type := {
  lit : Z -> num;                      (* an integer literal: [0], [2], [3] *)
  add : num -> num -> num;
  sub : num -> num -> num;
  mul : num -> num -> num;
  div : num -> num -> num;
  neq : num -> num -> bool;            (* [x != y] on two numbers *)
  Math_max : list num -> num;          (* [Math.max(...l)] *)
  Math_min : list num -> num;          (* [Math.min(...l)] *)
  Math_round : num -> num              (* [Math.round(x)] *)
}.

Declare Scope js_scope.
Delimit Scope js_scope with js.
Infix "+" := add : js_scope.
Infix "-" := sub : js_scope.
Infix "*" := mul : js_scope.
Infix "/" := div : js_scope.
Infix "!=" := neq (at level 70, no associativity) : js_scope.

(** *** binary64 *)

Module F64.
Local Open Scope float_scope.

Definition of_Z (z : Z) : float :=
  match z with
  | Z0 => zero
  | Zpos _ => of_uint63 (Uint63.of_Z z)
  | Zneg p => PrimFloat.opp (of_uint63 (Uint63.of_Z (Zpos p)))
  end.

Definition neq (x y : float) : bool := negb (PrimFloat.eqb x y).

Definition is_pos_zero (x : float) : bool := is_zero x && negb (get_sign x).
Definition is_neg_zero (x : float) : bool := is_zero x && get_sign x.

(** One argument of [Math.max] (ECMAScript 21.3.2.24): a NaN argument
    makes the result NaN, [+0] beats [-0], otherwise the larger wins. *)
Definition max_step (highest number : float) : float :=
  if is_nan highest || is_nan number then nan
  else if is_pos_zero number && is_neg_zero highest then number
  else if PrimFloat.ltb highest number then number
  else highest.

Definition min_step (lowest number : float) : float :=
  if is_nan lowest || is_nan number then nan
  else if is_neg_zero number && is_pos_zero lowest then number
  else if PrimFloat.ltb number lowest then number
  else lowest.

Definition Math_max (l : list float) : float := fold_left max_step l neg_infinity.
Definition Math_min (l : list float) : float := fold_left min_step l infinity.

(** [Math.round] (ECMAScript 21.3.2.28): NaN, the infinities, the zeros
    and integral values are returned as they are; otherwise the nearest
    integer, ties towards +Infinity, and [-0] for [-0.5 <= x < 0].  A
    finite [x] is [(-1)^s * m * 2^e]; for [e < 0] the rounded value is
    [floor (x + 1/2)], computed exactly on integers. *)
Definition Math_round (x : float) : float :=
  match Prim2SF x with
  | S754_finite s m e =>
      if (0 <=? e)%Z then x
      else
        let twice := if s then Zneg m~0 else Zpos m~0 in
        let k := ((twice + 2 ^ (- e)) / 2 ^ (1 - e))%Z in
        if (k =? 0)%Z then (if s then neg_zero else zero) else of_Z k
  | _ => x
  end.
End F64.

#[export] Instance float_number : JsNumber float := {
  lit := F64.of_Z;
  add := PrimFloat.add;
  sub := PrimFloat.sub;
  mul := PrimFloat.mul;
  div := PrimFloat.div;
  neq := F64.neq;
  Math_max := F64.Math_max;
  Math_min := F64.Math_min;
  Math_round := F64.Math_round
}.

(** *** exact rationals

    The same operations without rounding, NaN or infinities.  [Math.max]
    and [Math.min] of no argument are infinite in JavaScript and have no
    rational counterpart; the value given here is never used on a
    non-empty polygon. *)

Module Exact.
Local Open Scope Q_scope.

Definition neq (x y : Q) : bool := negb (Qeq_bool x y).

Definition max_step (highest number : Q) : Q :=
  if Qle_bool number highest then highest else number.
Definition min_step (lowest number : Q) : Q :=
  if Qle_bool lowest number then lowest else number.

Definition Math_max (l : list Q) : Q :=
  match l with [] => 0 | x :: l' => fold_left max_step l' x end.
Definition Math_min (l : list Q) : Q :=
  match l with [] => 0 | x :: l' => fold_left min_step l' x end.

Definition Math_round (x : Q) : Q := inject_Z (Qfloor (x + (1 # 2))).
End Exact.

#[export] Instance exact_number : JsNumber Q := {
  lit := inject_Z;
  add := Qplus;
  sub := Qminus;
  mul := Qmult;
  div := Qdiv;
  neq := Exact.neq;
  Math_max := Exact.Math_max;
  Math_min := Exact.Math_min;
  Math_round := Exact.Math_round
}.

(** ** Data model *)

Record Coord (num : Type) : Type := { lng : num; lat : num }.
Arguments Build_Coord {num} _ _.
Arguments lng {num} _.
Arguments lat {num} _.

(** A JavaScript exception.  The only one this file can raise itself is
    the [TypeError] of a property read on [undefined] or [null]. *)
Inductive js_error : Type :=
| TypeError (what : string).

Inductive completion (A : Type) : Type :=
| Normal (a : A)
| Throw (e : js_error).
Arguments Normal {A} _.
Arguments Throw {A} _.

(** ** [get_polygon_centroid] *)

Section Centroid.
Context {num : Type} {N : JsNumber num}.
Local Open Scope js_scope.

(** The three accumulators of the loop. *)
Record sums : Type := { area : num; lngSum : num; latSum : num }.

Definition sums0 : sums := {| area := lit 0; lngSum := lit 0; latSum := lit 0 |}.

Definition cross (first p1 p2 : Coord num) : num :=
  (lat p1 - lat first) * (lng p2 - lng first)
  - (lat p2 - lat first) * (lng p1 - lng first).

(** One iteration of the [for] body, lines 245-252. *)
Definition loop_body (first p1 p2 : Coord num) (s : sums) : sums :=
  let f := cross first p1 p2 in
  {| area := area s + f;
     lngSum := lngSum s + (lng p1 + lng p2 - lit 2 * lng first) * f;
     latSum := latSum s + (lat p1 + lat p2 - lit 2 * lat first) * f |}.

(** [for (let i = 0, j = nPts - 1; i < nPts; j = i++)]: [k] counts the
    iterations that remain, [nPts - i].  An index outside the array
    reads [undefined], whose property read throws. *)
Fixpoint centroid_loop (pts : list (Coord num)) (first : Coord num)
         (k i j : nat) (s : sums) : completion sums :=
  match k with
  | O => Normal s
  | S k' =>
      match nth_error pts i, nth_error pts j with
      | Some p1, Some p2 =>
          centroid_loop pts first k' (S i) i (loop_body first p1 p2 s)
      | _, _ => Throw (TypeError "cannot read a property of undefined")
      end
  end.

(** Line 236: [if (first.lng != last.lng || first.lat != last.lat)
    pts.push(first)]. *)
Definition is_open (first last : Coord num) : bool :=
  (lng first != lng last) || (lat first != lat last).

Definition closure (pts : list (Coord num)) : list (Coord num) :=
  match nth_error pts 0, nth_error pts (length pts - 1) with
  | Some first, Some last => if is_open first last then pts ++ [first] else pts
  | _, _ => pts
  end.

(** Lines 254-255. *)
Definition centroid_of_sums (first : Coord num) (s : sums) : Coord num :=
  let f := area s * lit 3 in
  {| lng := lngSum s / f + lng first; lat := latSum s / f + lat first |}.

(** The function takes the caller's array by reference: it returns the
    array as the call leaves it together with its completion. *)
Definition get_polygon_centroid (pts : list (Coord num))
  : list (Coord num) * completion (Coord num) :=
  match nth_error pts 0, nth_error pts (length pts - 1) with
  | Some first, Some last =>
      let pts' := if is_open first last then pts ++ [first] else pts in
      let nPts := length pts' in
      (pts',
       match centroid_loop pts' first nPts 0 (nPts - 1) sums0 with
       | Normal s => Normal (centroid_of_sums first s)
       | Throw e => Throw e
       end)
  | _, _ => (pts, Throw (TypeError "cannot read property 'lng' of undefined"))
  end.
End Centroid.

(** ** The Earth Engine collaborator

    Every use of the [ee] client is recorded as a call, in the order the
    program issues it.  What the service answers is a parameter of the
    model: the outcome of the key verification, the properties of the image
    that [filterDate(...).sort('CLOUD_COVER').first()] selects ([None] when
    the filtered collection is empty, in which case [getInfo()] yields
    [null]), and the thumbnail URL. *)

Section Orchestrator.
Context {num : Type} {N : JsNumber num}.
Local Open Scope js_scope.

Record vis_params : Type := {
  bands : list string;
  vis_min : num;
  vis_max : num;
  opacity : num;
  palette : list string
}.

Inductive ee_call : Type :=
| ee_authenticateViaPrivateKey (devKey : string)
| ee_initialize
| ee_Geometry_Point (coords : list num)
| ee_ImageCollection (id : string)
| ee_filterDate (dateStart dateEnd : num)
| ee_sort (property : string)
| ee_first
| ee_Image
| ee_visualize (params : vis_params)
| ee_Geometry_Polygon (coords : list (list num))
| ee_clip
| ee_getInfo
| ee_getThumbURL (dimensions : list num).

Record image_properties : Type := {
  system_time_start : num;
  system_time_end : num;
  system_index : string
}.

Record collaborator : Type := {
  (* [None]: the key is accepted and the success callback runs;
     [Some e]: the error callback runs with [e] *)
  verify : string -> option string;
  (* the least cloudy image between two dates, if there is one *)
  selected : num -> num -> option image_properties;
  (* the URL for given dimensions and region *)
  thumb_url : list num -> list (list num) -> string
}.

(** The state a run acts on: the caller's polygon array, which
    [get_polygon_centroid] receives by reference, and the calls issued so
    far. *)
Record world : Type := {
  polygon : list (Coord num);
  calls : list ee_call
}.

Definition M (A : Type) : Type := world -> completion A * world.

Definition ret {A} (a : A) : M A := fun w => (Normal a, w).
Definition throw {A} (e : js_error) : M A := fun w => (Throw e, w).
Definition bind {A B} (m : M A) (k : A -> M B) : M B :=
  fun w => match m w with
           | (Normal a, w') => k a w'
           | (Throw e, w') => (Throw e, w')
           end.

Local Notation "x <- m ;; k" := (bind m (fun x => k))
  (at level 100, m at next level, right associativity).
Local Notation "m ;;; k" := (bind m (fun _ => k))
  (at level 100, right associativity).

Definition call (c : ee_call) : M unit :=
  fun w => (Normal tt, {| polygon := polygon w; calls := calls w ++ [c] |}).

Definition read_polygon : M (list (Coord num)) :=
  fun w => (Normal (polygon w), w).

(** [get_polygon_centroid(polygon)] on the shared array. *)
Definition call_get_polygon_centroid : M (Coord num) :=
  fun w => let (pts', r) := get_polygon_centroid (polygon w) in
           (r, {| polygon := pts'; calls := calls w |}).

(** [image.getInfo().properties[...]]: one round trip, then a property
    read on its answer. *)
Definition getInfo_properties (image : option image_properties)
  : M image_properties :=
  call ee_getInfo ;;;
  match image with
  | Some props => ret props
  | None => throw (TypeError "cannot read property 'properties' of null")
  end.

Definition ndviAgro : list string :=
  ["d7d7d7"; "d5d5d5"; "d2d2d2"; "c7c7c7"; "a70204"; "e50004"; "fb6300";
   "ffb001"; "f5e702"; "c2e100"; "81cd00"; "5cbe02"; "46a703"; "36a801";
   "209e01"; "029302"; "008900"; "027e02"; "047101"; "006400"]%string.

(** The literals [-0.2] and [0.8] are the numbers nearest to [-2/10] and
    [8/10]. *)
Definition vis : vis_params :=
  {| bands := ["NDVI"%string];
     vis_min := lit (-2) / lit 10;
     vis_max := lit 8 / lit 10;
     opacity := lit 1;
     palette := ndviAgro |}.

Record result : Type := {
  width : num;
  height : num;
  centroid : Coord num;
  bounds : list (Coord num);
  time_start : num;
  time_end : num;
  index : string;
  img_url : string
}.

(** Lines 77-90 of [runAnalysis]: the coordinate ring for the service,
    the bounding box and the output dimensions. *)
Record geometry : Type := {
  coord : list (list num);
  maxLng : num;
  minLng : num;
  maxLat : num;
  minLat : num;
  dimensionLng : num;
  dimensionLat : num
}.

Definition derive (polygon : list (Coord num)) (width : num) : geometry :=
  let coord := map (fun a => [lng a; lat a]) polygon in
  let coordLng := map lng polygon in
  let coordLat := map lat polygon in
  let maxLng := Math_max coordLng in
  let minLng := Math_min coordLng in
  let maxLat := Math_max coordLat in
  let minLat := Math_min coordLat in
  let deltaLng := maxLng - minLng in
  let deltaLat := maxLat - minLat in
  let dimensionLng := Math_round width in
  let dimensionLat := Math_round ((width * deltaLat) / deltaLng) in
  {| coord := coord;
     maxLng := maxLng; minLng := minLng; maxLat := maxLat; minLat := minLat;
     dimensionLng := dimensionLng; dimensionLat := dimensionLat |}.

(** [runAnalysis], lines 63-212. *)
Definition runAnalysis (ee : collaborator) (width dateStart dateEnd : num)
  : M result :=
  call ee_initialize ;;;
  polygon <- read_polygon ;;
  let g := derive polygon width in
  c1 <- call_get_polygon_centroid ;;
  let centroidLng := lng c1 in
  c2 <- call_get_polygon_centroid ;;
  let centroidLat := lat c2 in
  call (ee_Geometry_Point [centroidLng; centroidLat]) ;;;
  call (ee_ImageCollection "LANDSAT/LC08/C01/T1_32DAY_NDVI") ;;;
  call (ee_filterDate dateStart dateEnd) ;;;
  call (ee_sort "CLOUD_COVER") ;;;
  call ee_first ;;;
  call ee_Image ;;;
  let image := selected ee dateStart dateEnd in
  call (ee_visualize vis) ;;;
  call (ee_Geometry_Polygon (coord g)) ;;;
  call ee_clip ;;;
  p1 <- getInfo_properties image ;;
  let time_start := system_time_start p1 in
  p2 <- getInfo_properties image ;;
  let time_end := system_time_end p2 in
  p3 <- getInfo_properties image ;;
  let index := system_index p3 in
  call (ee_Geometry_Polygon (coord g)) ;;;
  call (ee_getThumbURL [dimensionLng g; dimensionLat g]) ;;;
  let urlImg := thumb_url ee [dimensionLng g; dimensionLat g] (coord g) in
  ret {| width := dimensionLng g;
         height := dimensionLat g;
         centroid := {| lng := centroidLng; lat := centroidLat |};
         bounds := [ {| lng := maxLng g; lat := maxLat g |};
                     {| lng := minLng g; lat := minLat g |} ];
         time_start := time_start;
         time_end := time_end;
         index := index;
         img_url := urlImg |}.

(** The promise [ndviGen] returns.  [resolve] and [reject] are the only
    ways it settles; an exception that escapes [runAnalysis] inside the
    success callback reaches neither. *)
Inductive promise (A : Type) : Type :=
| Resolved (a : A)
| Rejected (reason : string)
| Unsettled (e : js_error).
Arguments Resolved {A} _.
Arguments Rejected {A} _.
Arguments Unsettled {A} _.

(** [ndviGen], lines 53-228: the verification is issued once; the
    service runs the success callback or the error callback with its
    message. *)
Definition ndviGen (ee : collaborator) (devKey : string)
           (width dateStart dateEnd : num) : world -> promise result * world :=
  fun w =>
    let w1 := {| polygon := polygon w;
                 calls := calls w ++ [ee_authenticateViaPrivateKey devKey] |} in
    match verify ee devKey with
    | None =>
        match runAnalysis ee width dateStart dateEnd w1 with
        | (Normal r, w2) => (Resolved r, w2)
        | (Throw e, w2) => (Unsettled e, w2)
        end
    | Some e => (Rejected ("Authentication error: " ++ e), w1)
    end.
End Orchestrator.

Arguments Resolved {A} _.
Arguments Rejected {A} _.
Arguments Unsettled {A} _.

(** ** The centroid as the specification words it (section 4.1)

    Close the ring; for each index [i] of the closed ring pair the current
    vertex [ring[i]] with the previous one [ring[(i-1) mod n]]; sum the
    cross terms and the two weighted sums; divide by [area * 3] and add the
    first vertex back. *)

Section ShoelaceSpec.
Context {num : Type} {N : JsNumber num}.
Local Open Scope js_scope.

Definition spec_pairs (ring : list (Coord num)) (d : Coord num)
  : list (Coord num * Coord num) :=
  let n := length ring in
  map (fun i => (nth i ring d, nth ((i + n - 1) mod n) ring d)) (seq 0 n).

Definition spec_area (a : Coord num) (ring : list (Coord num)) : num :=
  fold_left (fun acc pr => acc + cross a (fst pr) (snd pr))
            (spec_pairs ring a) (lit 0).

Definition spec_lngSum (a : Coord num) (ring : list (Coord num)) : num :=
  fold_left (fun acc pr =>
               acc + (lng (fst pr) + lng (snd pr) - lit 2 * lng a)
                     * cross a (fst pr) (snd pr))
            (spec_pairs ring a) (lit 0).

Definition spec_latSum (a : Coord num) (ring : list (Coord num)) : num :=
  fold_left (fun acc pr =>
               acc + (lat (fst pr) + lat (snd pr) - lit 2 * lat a)
                     * cross a (fst pr) (snd pr))
            (spec_pairs ring a) (lit 0).

Definition spec_ring (pts : list (Coord num)) (a : Coord num) : list (Coord num) :=
  if is_open a (last pts a) then pts ++ [a] else pts.

Definition spec_centroid (pts : list (Coord num)) (a : Coord num) : Coord num :=
  let ring := spec_ring pts a in
  let denom := spec_area a ring * lit 3 in
  {| lng := spec_lngSum a ring / denom + lng a;
     lat := spec_latSum a ring / denom + lat a |}.
End ShoelaceSpec.

(** ** The loop as a fold over the pairs of the ring *)

Section RingSums.
Context {num : Type} {N : JsNumber num}.

(** The pair the loop reads at index [i]: the vertex there and the one
    before it on the ring. *)
Definition pair_at (ring : list (Coord num)) (d : Coord num) (i : nat)
  : Coord num * Coord num :=
  (nth i ring d, nth ((i + length ring - 1) mod length ring) ring d).

Definition step (a : Coord num) (s : sums) (pr : Coord num * Coord num) : sums :=
  loop_body a (fst pr) (snd pr) s.

(** The sums the loop ends with. *)
Definition ring_sums (ring : list (Coord num)) (a : Coord num) : sums :=
  fold_left (step a) (map (pair_at ring a) (seq 0 (length ring))) sums0.
End RingSums.

(** ** What is observed of a run *)

Section Observations.
Context {num : Type} {N : JsNumber num}.

(** How the promise settles on a completion of [runAnalysis]. *)
Definition settle (c : completion (@result num)) : promise (@result num) :=
  match c with
  | Normal r => Resolved r
  | Throw e => Unsettled e
  end.

(** The calls of a run up to and including its first [getInfo()]. *)
Definition query_calls (g : geometry) (c : Coord num) (dateStart dateEnd : num)
  : list ee_call :=
  [ee_initialize;
   ee_Geometry_Point [lng c; lat c];
   ee_ImageCollection "LANDSAT/LC08/C01/T1_32DAY_NDVI";
   ee_filterDate dateStart dateEnd;
   ee_sort "CLOUD_COVER";
   ee_first;
   ee_Image;
   ee_visualize vis;
   ee_Geometry_Polygon (coord g);
   ee_clip;
   ee_getInfo].

(** The calls of a run that completes. *)
Definition run_calls (g : geometry) (c : Coord num) (dateStart dateEnd : num)
  : list ee_call :=
  query_calls g c dateStart dateEnd
  ++ [ee_getInfo; ee_getInfo;
      ee_Geometry_Polygon (coord g);
      ee_getThumbURL [dimensionLng g; dimensionLat g]].

(** The record a completed run returns. *)
Definition result_of (ee : collaborator) (g : geometry) (c : Coord num)
           (props : image_properties) : result :=
  {| width := dimensionLng g;
     height := dimensionLat g;
     centroid := c;
     bounds := [ {| lng := maxLng g; lat := maxLat g |};
                 {| lng := minLng g; lat := minLat g |} ];
     time_start := system_time_start props;
     time_end := system_time_end props;
     index := system_index props;
     img_url := thumb_url ee [dimensionLng g; dimensionLat g] (coord g) |}.

Definition is_initialize (c : @ee_call num) : bool :=
  match c with ee_initialize => true | _ => false end.

Definition is_getInfo (c : @ee_call num) : bool :=
  match c with ee_getInfo => true | _ => false end.

(** The coordinate rings sent to the service. *)
Definition polygon_rings (cs : list (@ee_call num)) : list (list (list num)) :=
  flat_map (fun c => match c with ee_Geometry_Polygon r => [r] | _ => [] end) cs.
End Observations.

(** ** binary64: order and classes

    [SFcompare] orders the numbers that are not NaN as the triples [key]:
    the class first (-Infinity, negative, zero, positive, +Infinity), then
    exponent and mantissa, both reversed below zero. *)

Module F64Order.
Definition key (x : spec_float) : Z * Z * Z :=
  match x with
  | S754_nan => (0, 0, 0)
  | S754_zero _ => (0, 0, 0)
  | S754_infinity s => (if s then -2 else 2, 0, 0)
  | S754_finite s m e => if s then (-1, - e, Zneg m) else (1, e, Zpos m)
  end%Z.

Definition lex3 (k1 k2 : Z * Z * Z) : comparison :=
  let '(c1, e1, m1) := k1 in
  let '(c2, e2, m2) := k2 in
  match (c1 ?= c2)%Z with
  | Eq => match (e1 ?= e2)%Z with Eq => (m1 ?= m2)%Z | r => r end
  | r => r
  end.

Definition le3 (k1 k2 : Z * Z * Z) : Prop := lex3 k1 k2 <> Gt.

(** A number proper: not NaN. *)
Definition number (x : float) : Prop := is_nan x = false.

(** The greatest element: a member that every member is below. *)
Definition greatest (l : list float) (m : float) : Prop :=
  In m l /\ forall x, In x l -> (x <=? m)%float = true.

Definition least (l : list float) (m : float) : Prop :=
  In m l /\ forall x, In x l -> (m <=? x)%float = true.

Definition SFnonfinite (x : spec_float) : bool :=
  match x with
  | S754_nan | S754_infinity _ => true
  | _ => false
  end.
End F64Order.
Import F64Order.

(** ** Exact arithmetic: one coordinate of the centroid

    [x] reads the coordinate of a vertex, [lo] and [hi] bound it over the
    polygon, and [sg] is the common orientation of the triangles, 1 or -1.
    [bounded A W] relates the area [A] and the weighted sum [W] the loop
    has accumulated. *)

Module ExactAxis.
Section OneAxis.
Local Open Scope Q_scope.
Variable a : Coord Q.
Variables lo hi sg : Q.
Variable x : Coord Q -> Q.

Definition inside (p : Coord Q) : Prop := lo <= x p /\ x p <= hi.

Definition term (pr : Coord Q * Coord Q) : Q :=
  (x (fst pr) + x (snd pr) - 2 * x a) * cross a (fst pr) (snd pr).

Definition oriented (pr : Coord Q * Coord Q) : Prop :=
  0 <= sg * cross a (fst pr) (snd pr).

Definition bounded (A W : Q) : Prop :=
  0 <= sg * A
  /\ 3 * (lo - x a) * (sg * A) <= sg * W
  /\ sg * W <= 3 * (hi - x a) * (sg * A)
  /\ (~ A == 0 -> 3 * (lo - x a) * (sg * A) < sg * W
                  /\ sg * W < 3 * (hi - x a) * (sg * A)).

Definition fold_area (prs : list (Coord Q * Coord Q)) (A : Q) : Q :=
  fold_left (fun acc pr => acc + cross a (fst pr) (snd pr)) prs A.

Definition fold_term (prs : list (Coord Q * Coord Q)) (W : Q) : Q :=
  fold_left (fun acc pr => acc + term pr) prs W.
End OneAxis.
End ExactAxis.

(** ** Reference inputs

    The polygons of the specification's examples, degenerate ones, and two
    services. *)

Definition pt (x y : Z) : Coord float := {| lng := F64.of_Z x; lat := F64.of_Z y |}.

Definition square : list (Coord float) := [pt 0 0; pt 0 2; pt 2 2; pt 2 0].
Definition triangle : list (Coord float) := [pt 0 0; pt 4 0; pt 0 3].
Definition sliver : list (Coord float) := [pt 0 0; pt 0 1; pt 0 2].

(** One unit in the last place wide. *)
Definition thin_triangle : list (Coord float) :=
  [ {| lng := 1%float; lat := 0%float |};
    {| lng := 0x1.0000000000001p+0%float; lat := 0%float |};
    {| lng := 1%float; lat := 1%float |} ].

(** The square in exact arithmetic. *)
Definition exact_square : list (Coord Q) :=
  [ {| lng := 0; lat := 0 |}; {| lng := 0; lat := 2 |};
    {| lng := 2; lat := 2 |}; {| lng := 2; lat := 0 |} ]%Q.

(** A service that accepts every key and always has an image. *)
Definition sample_service : collaborator (num := float) :=
  {| verify := fun _ => None;
     selected := fun _ _ =>
       Some {| system_time_start := 1%float; system_time_end := 2%float;
               system_index := "20200101" |};
     thumb_url := fun _ _ => "https://earthengine.googleapis.com/thumb"%string |}.

(** A service whose filtered collection is empty. *)
Definition empty_service : collaborator (num := float) :=
  {| verify := fun _ => None;
     selected := fun _ _ => None;
     thumb_url := fun _ _ => "https://earthengine.googleapis.com/thumb"%string |}.

Definition nan_sums : sums (num := float) :=
  {| area := nan; lngSum := nan; latSum := nan |}.

(** ** Values that no division survives

    A zero of either sign or NaN: what a cross term is when one of its two
    vertices is the first vertex itself. *)

Definition SFzero_or_nan (x : spec_float) : bool :=
  match x with
  | S754_zero _ | S754_nan => true
  | _ => false
  end.

Definition zero_or_nan (x : float) : Prop := SFzero_or_nan (Prim2SF x) = true.

Definition zero_or_nan_sums (s : sums (num := float)) : Prop :=
  zero_or_nan (area s) /\ zero_or_nan (lngSum s) /\ zero_or_nan (latSum s).

(** ** Translation of a polygon, in exact arithmetic *)

Definition translate (t p : Coord Q) : Coord Q :=
  {| lng := (lng p + lng t)%Q; lat := (lat p + lat t)%Q |}.

(** ** The loop, whatever the arithmetic *)

Section LoopFacts.
Context {num : Type} {N : JsNumber num}.

Lemma nth_error_nth_in (l : list (Coord num)) (d : Coord num) (i : nat) :
  i < length l -> nth_error l i = Some (nth i l d).
Proof. intros H. now apply nth_error_nth'. Qed.

Lemma nth_length_cons (l : list (Coord num)) :
  forall a d, nth (length l) (a :: l) d = last (a :: l) d.
Proof.
  induction l as [|b l IH]; intros a d; [reflexivity|].
  change (nth (length (b :: l)) (a :: b :: l) d) with (nth (length l) (b :: l) d).
  now rewrite IH.
Qed.

(** From index [i], with [j] the index before it on the ring, the loop
    runs its remaining [k] iterations without a failing read. *)
Lemma centroid_loop_fold (ring : list (Coord num)) (a : Coord num) :
  forall k i j s,
    i + k = length ring ->
    j = (i + length ring - 1) mod length ring ->
    centroid_loop ring a k i j s
    = Normal (fold_left (step a) (map (pair_at ring a) (seq i k)) s).
Proof.
  induction k as [|k IH]; intros i j s Hik Hj; [reflexivity|].
  assert (Hi : i < length ring) by lia.
  assert (Hjlt : j < length ring).
  { subst j. apply Nat.mod_upper_bound. lia. }
  cbn [centroid_loop seq map fold_left].
  rewrite (nth_error_nth_in ring a i Hi), (nth_error_nth_in ring a j Hjlt).
  rewrite (IH (S i) i); [| lia |].
  - unfold step at 2, pair_at at 2. cbn [fst snd]. now subst j.
  - replace (S i + length ring - 1) with (i + 1 * length ring) by lia.
    rewrite Nat.Div0.mod_add. symmetry. now apply Nat.mod_small.
Qed.

Lemma centroid_loop_total (ring : list (Coord num)) (a : Coord num) :
  ring <> [] ->
  centroid_loop ring a (length ring) 0 (length ring - 1) sums0
  = Normal (fold_left (step a) (map (pair_at ring a) (seq 0 (length ring))) sums0).
Proof.
  intros Hne. apply centroid_loop_fold; [reflexivity|].
  assert (0 < length ring) by (destruct ring; [congruence | cbn; lia]).
  symmetry. apply Nat.mod_small. lia.
Qed.

(** What the call leaves in the array and what it returns, for a
    non-empty polygon. *)
Lemma get_polygon_centroid_cons (a : Coord num) (l : list (Coord num)) :
  get_polygon_centroid (a :: l)
  = (spec_ring (a :: l) a,
     Normal (centroid_of_sums a (ring_sums (spec_ring (a :: l) a) a))).
Proof.
  unfold get_polygon_centroid, spec_ring.
  assert (Hlast : nth_error (a :: l) (length (a :: l) - 1) = Some (last (a :: l) a)).
  { rewrite (nth_error_nth_in (a :: l) a) by (cbn; lia).
    f_equal. cbn [length]. rewrite Nat.sub_1_r. cbn [pred].
    apply nth_length_cons. }
  rewrite Hlast. cbn [nth_error].
  set (ring := if is_open a (last (a :: l) a) then (a :: l) ++ [a] else a :: l).
  rewrite centroid_loop_total; [reflexivity|].
  subst ring. destruct (is_open _ _); discriminate.
Qed.

Lemma fold_step_area (a : Coord num) (prs : list (Coord num * Coord num)) :
  forall s,
    area (fold_left (step a) prs s)
    = fold_left (fun acc pr => acc + cross a (fst pr) (snd pr))%js prs (area s).
Proof. induction prs as [|pr prs IH]; intros s; [reflexivity|]. cbn. now rewrite IH. Qed.

Lemma fold_step_lngSum (a : Coord num) (prs : list (Coord num * Coord num)) :
  forall s,
    lngSum (fold_left (step a) prs s)
    = fold_left (fun acc pr =>
                   acc + (lng (fst pr) + lng (snd pr) - lit 2 * lng a)
                         * cross a (fst pr) (snd pr))%js prs (lngSum s).
Proof. induction prs as [|pr prs IH]; intros s; [reflexivity|]. cbn. now rewrite IH. Qed.

Lemma fold_step_latSum (a : Coord num) (prs : list (Coord num * Coord num)) :
  forall s,
    latSum (fold_left (step a) prs s)
    = fold_left (fun acc pr =>
                   acc + (lat (fst pr) + lat (snd pr) - lit 2 * lat a)
                         * cross a (fst pr) (snd pr))%js prs (latSum s).
Proof. induction prs as [|pr prs IH]; intros s; [reflexivity|]. cbn. now rewrite IH. Qed.

Lemma centroid_of_ring_sums (pts : list (Coord num)) (a : Coord num) :
  centroid_of_sums a (ring_sums (spec_ring pts a) a) = spec_centroid pts a.
Proof.
  unfold centroid_of_sums, spec_centroid, ring_sums, spec_area, spec_lngSum,
    spec_latSum, spec_pairs.
  rewrite fold_step_area, fold_step_lngSum, fold_step_latSum. reflexivity.
Qed.
End LoopFacts.

(** ** Runs of [runAnalysis] and [ndviGen], whatever the arithmetic *)

Section RunFacts.
Context {num : Type} {N : JsNumber num}.

Lemma closure_cons (a : Coord num) (l : list (Coord num)) :
  closure (a :: l) = spec_ring (a :: l) a.
Proof.
  unfold closure, spec_ring. cbn [nth_error].
  rewrite (nth_error_nth_in (a :: l) a) by (cbn; lia).
  cbn [length]. rewrite Nat.sub_1_r. cbn [pred].
  now rewrite nth_length_cons.
Qed.

Lemma closure_head (a : Coord num) (l : list (Coord num)) :
  closure (a :: l) = a :: tl (closure (a :: l)).
Proof.
  rewrite closure_cons. unfold spec_ring.
  now destruct (is_open a (last (a :: l) a)).
Qed.

(** A call on a non-empty array returns; it leaves the closed ring. *)
Lemma get_polygon_centroid_returns (pts : list (Coord num)) :
  pts <> [] ->
  exists c, get_polygon_centroid pts = (closure pts, Normal c).
Proof.
  destruct pts as [|a l]; [congruence|]. intros _.
  rewrite get_polygon_centroid_cons, closure_cons. eauto.
Qed.

Lemma closure_nonempty (pts : list (Coord num)) :
  pts <> [] -> closure pts <> [].
Proof.
  destruct pts as [|a l]; [congruence|]. intros _.
  rewrite closure_head. discriminate.
Qed.

Ltac run_step :=
  cbv beta iota zeta delta [runAnalysis bind call read_polygon
    call_get_polygon_centroid getInfo_properties ret throw polygon calls].

Lemma runAnalysis_ok (ee : collaborator) (width dateStart dateEnd : num)
      (pts pts1 pts2 : list (Coord num)) (c1 c2 : Coord num)
      (cs : list ee_call) (props : image_properties) :
  get_polygon_centroid pts = (pts1, Normal c1) ->
  get_polygon_centroid pts1 = (pts2, Normal c2) ->
  selected ee dateStart dateEnd = Some props ->
  runAnalysis ee width dateStart dateEnd {| polygon := pts; calls := cs |}
  = (Normal (result_of ee (derive pts width) {| lng := lng c1; lat := lat c2 |} props),
     {| polygon := pts2;
        calls := cs ++ run_calls (derive pts width) {| lng := lng c1; lat := lat c2 |}
                                 dateStart dateEnd |}).
Proof.
  intros H1 H2 Hsel. run_step. rewrite H1. run_step.
  rewrite H2. run_step. rewrite Hsel. run_step.
  unfold result_of, run_calls, query_calls. cbn [lng lat].
  repeat rewrite <- app_assoc. reflexivity.
Qed.

Lemma runAnalysis_no_image (ee : collaborator) (width dateStart dateEnd : num)
      (pts pts1 pts2 : list (Coord num)) (c1 c2 : Coord num)
      (cs : list ee_call) :
  get_polygon_centroid pts = (pts1, Normal c1) ->
  get_polygon_centroid pts1 = (pts2, Normal c2) ->
  selected ee dateStart dateEnd = None ->
  runAnalysis ee width dateStart dateEnd {| polygon := pts; calls := cs |}
  = (Throw (TypeError "cannot read property 'properties' of null"),
     {| polygon := pts2;
        calls := cs ++ query_calls (derive pts width) {| lng := lng c1; lat := lat c2 |}
                                   dateStart dateEnd |}).
Proof.
  intros H1 H2 Hsel. run_step. rewrite H1. run_step.
  rewrite H2. run_step. rewrite Hsel. run_step.
  unfold query_calls. cbn [lng lat].
  repeat rewrite <- app_assoc. reflexivity.
Qed.

Lemma runAnalysis_empty (ee : collaborator) (width dateStart dateEnd : num)
      (cs : list ee_call) :
  runAnalysis ee width dateStart dateEnd {| polygon := []; calls := cs |}
  = (Throw (TypeError "cannot read property 'lng' of undefined"),
     {| polygon := []; calls := cs ++ [ee_initialize] |}).
Proof. reflexivity. Qed.

(** Every run starts with [ee.initialize] and issues it once, however it
    ends. *)
Lemma runAnalysis_calls (ee : collaborator) (width dateStart dateEnd : num)
      (w : world) :
  exists cs',
    calls (snd (runAnalysis ee width dateStart dateEnd w)) = calls w ++ ee_initialize :: cs'
    /\ List.length (filter is_initialize cs') = 0.
Proof.
  destruct w as [pts cs]. cbn [calls].
  destruct pts as [|a l].
  - rewrite runAnalysis_empty. cbn [snd calls]. now exists [].
  - destruct (get_polygon_centroid_returns (a :: l)) as [c1 H1]; [discriminate|].
    destruct (get_polygon_centroid_returns (closure (a :: l))) as [c2 H2].
    { apply closure_nonempty. discriminate. }
    destruct (selected ee dateStart dateEnd) as [props|] eqn:Hsel.
    + rewrite (runAnalysis_ok _ width _ _ _ _ _ _ _ cs _ H1 H2 Hsel). cbn [snd calls].
      eexists. split; [reflexivity|reflexivity].
    + rewrite (runAnalysis_no_image _ width _ _ _ _ _ _ _ cs H1 H2 Hsel). cbn [snd calls].
      eexists. split; [reflexivity|reflexivity].
Qed.
End RunFacts.

(** ** binary64 facts

    What the proofs need of IEEE arithmetic, from the specification of the
    primitive operations in [FloatAxioms]. *)

Module F64Facts.

Lemma Prim2SF_nan : Prim2SF nan = S754_nan.
Proof. reflexivity. Qed.

Lemma SFcompare_refl (x : spec_float) :
  x <> S754_nan -> SFcompare x x = Some Eq.
Proof.
  destruct x as [s|s| |s m e]; intros H; try congruence; cbn.
  - reflexivity.
  - now destruct s.
  - rewrite Z.compare_refl.
    change (Pos.compare_cont Eq m m) with (Pos.compare m m).
    rewrite Pos.compare_refl. now destruct s.
Qed.

Lemma is_nan_true (x : float) : is_nan x = true -> x = nan.
Proof.
  unfold is_nan. rewrite FloatAxioms.eqb_spec. intros H.
  apply Prim2SF_inj. rewrite Prim2SF_nan.
  destruct (Prim2SF x) as [s|s| |s m e] eqn:E; try reflexivity;
    unfold SFeqb in H; rewrite SFcompare_refl in H; discriminate.
Qed.

Lemma neq_refl_true (x : float) : F64.neq x x = true -> x = nan.
Proof. apply is_nan_true. Qed.

Ltac by_spec lem :=
  intros; apply Prim2SF_inj; rewrite lem, ?Prim2SF_nan;
  repeat match goal with |- context [Prim2SF ?y] => destruct (Prim2SF y) end;
  reflexivity.

Lemma add_nan_l y : (nan + y)%float = nan.   Proof. by_spec add_spec. Qed.
Lemma add_nan_r x : (x + nan)%float = nan.   Proof. by_spec add_spec. Qed.
Lemma sub_nan_l y : (nan - y)%float = nan.   Proof. by_spec sub_spec. Qed.
Lemma sub_nan_r x : (x - nan)%float = nan.   Proof. by_spec sub_spec. Qed.
Lemma mul_nan_l y : (nan * y)%float = nan.   Proof. by_spec mul_spec. Qed.
Lemma mul_nan_r x : (x * nan)%float = nan.   Proof. by_spec mul_spec. Qed.
Lemma div_nan_l y : (nan / y)%float = nan.   Proof. by_spec div_spec. Qed.
Lemma div_nan_r x : (x / nan)%float = nan.   Proof. by_spec div_spec. Qed.

Create Rewrite HintDb nan_arith.
#[export] Hint Rewrite add_nan_l add_nan_r sub_nan_l sub_nan_r
  mul_nan_l mul_nan_r div_nan_l div_nan_r : nan_arith.

(** *** The order of the numbers that are not NaN *)

Lemma SFcompare_key (x y : spec_float) :
  x <> S754_nan -> y <> S754_nan ->
  SFcompare x y = Some (lex3 (key x) (key y)).
Proof.
  destruct x as [s1|s1| |s1 m1 e1], y as [s2|s2| |s2 m2 e2];
    intros Hx Hy; try congruence;
    try (destruct s1); try (destruct s2); try reflexivity;
    cbn [SFcompare key lex3]; f_equal.
  change (-1 ?= -1)%Z with Eq. cbv iota.
  rewrite Z.compare_opp, (Z.compare_antisym e1 e2).
  destruct (e1 ?= e2)%Z; reflexivity.
Qed.

Lemma lex3_spec (k1 k2 : Z * Z * Z) :
  let '(c1, e1, m1) := k1 in
  let '(c2, e2, m2) := k2 in
  match lex3 k1 k2 with
  | Lt => (c1 < c2 \/ (c1 = c2 /\ (e1 < e2 \/ (e1 = e2 /\ m1 < m2))))%Z
  | Eq => (c1 = c2 /\ e1 = e2 /\ m1 = m2)%Z
  | Gt => (c2 < c1 \/ (c1 = c2 /\ (e2 < e1 \/ (e1 = e2 /\ m2 < m1))))%Z
  end.
Proof.
  destruct k1 as [[c1 e1] m1], k2 as [[c2 e2] m2]. unfold lex3.
  destruct (Z.compare_spec c1 c2), (Z.compare_spec e1 e2),
    (Z.compare_spec m1 m2); lia.
Qed.

Lemma le3_trans (k1 k2 k3 : Z * Z * Z) : le3 k1 k2 -> le3 k2 k3 -> le3 k1 k3.
Proof.
  unfold le3. intros H12 H23.
  pose proof (lex3_spec k1 k2) as A. pose proof (lex3_spec k2 k3) as B.
  pose proof (lex3_spec k1 k3) as C.
  destruct k1 as [[c1 e1] m1], k2 as [[c2 e2] m2], k3 as [[c3 e3] m3].
  destruct (lex3 (c1, e1, m1) (c2, e2, m2)); try congruence;
    destruct (lex3 (c2, e2, m2) (c3, e3, m3)); try congruence;
    destruct (lex3 (c1, e1, m1) (c3, e3, m3)); try congruence; lia.
Qed.

Lemma lex3_flip (k1 k2 : Z * Z * Z) : lex3 k2 k1 = CompOpp (lex3 k1 k2).
Proof.
  pose proof (lex3_spec k1 k2) as A. pose proof (lex3_spec k2 k1) as B.
  destruct k1 as [[c1 e1] m1], k2 as [[c2 e2] m2].
  destruct (lex3 (c1, e1, m1) (c2, e2, m2));
    destruct (lex3 (c2, e2, m2) (c1, e1, m1)); try reflexivity; lia.
Qed.

Lemma number_spec (x : float) : number x -> Prim2SF x <> S754_nan.
Proof.
  unfold number, is_nan. rewrite FloatAxioms.eqb_spec. intros H E.
  rewrite E in H. discriminate.
Qed.

Lemma leb_key (x y : float) :
  number x -> number y ->
  ((x <=? y)%float = true <-> le3 (key (Prim2SF x)) (key (Prim2SF y))).
Proof.
  intros Hx Hy. rewrite leb_spec. unfold SFleb, le3.
  rewrite SFcompare_key by now apply number_spec.
  destruct (lex3 _ _); split; congruence.
Qed.

Lemma ltb_key (x y : float) :
  number x -> number y ->
  ((x <? y)%float = true <-> lex3 (key (Prim2SF x)) (key (Prim2SF y)) = Lt).
Proof.
  intros Hx Hy. rewrite ltb_spec. unfold SFltb.
  rewrite SFcompare_key by now apply number_spec.
  destruct (lex3 _ _); split; congruence.
Qed.

Lemma leb_refl (x : float) : number x -> (x <=? x)%float = true.
Proof.
  intros Hx. apply leb_key; trivial. unfold le3.
  pose proof (lex3_spec (key (Prim2SF x)) (key (Prim2SF x))) as A.
  destruct (key (Prim2SF x)) as [[c e] m].
  destruct (lex3 _ _); try congruence; lia.
Qed.

Lemma leb_trans (x y z : float) :
  number x -> number y -> number z ->
  (x <=? y)%float = true -> (y <=? z)%float = true -> (x <=? z)%float = true.
Proof.
  intros Hx Hy Hz Hxy Hyz.
  apply leb_key in Hxy; trivial. apply leb_key in Hyz; trivial.
  apply leb_key; trivial. eapply le3_trans; eassumption.
Qed.

Lemma ltb_leb (x y : float) :
  number x -> number y -> (x <? y)%float = true -> (x <=? y)%float = true.
Proof.
  intros Hx Hy H. apply ltb_key in H; trivial. apply leb_key; trivial.
  unfold le3. congruence.
Qed.

Lemma not_ltb_leb (x y : float) :
  number x -> number y -> (x <? y)%float = false -> (y <=? x)%float = true.
Proof.
  intros Hx Hy H. apply leb_key; trivial. unfold le3.
  rewrite lex3_flip. intros E.
  assert (L : lex3 (key (Prim2SF x)) (key (Prim2SF y)) = Lt)
    by (destruct (lex3 _ _); cbn in E; congruence).
  apply ltb_key in L; trivial. congruence.
Qed.

Lemma is_zero_spec (x : float) :
  is_zero x = true -> exists s, Prim2SF x = S754_zero s.
Proof.
  unfold is_zero. rewrite FloatAxioms.eqb_spec.
  change (Prim2SF zero) with (S754_zero false).
  destruct (Prim2SF x) as [s|s| |s m e]; intros H.
  - now exists s.
  - destruct s; discriminate.
  - discriminate.
  - destruct s; discriminate.
Qed.

Lemma zero_leb_zero (x y : float) :
  is_zero x = true -> is_zero y = true -> (x <=? y)%float = true.
Proof.
  intros Hx Hy. destruct (is_zero_spec x Hx) as [s Ex].
  destruct (is_zero_spec y Hy) as [t Ey].
  rewrite leb_spec, Ex, Ey. reflexivity.
Qed.

Lemma not_above_neg_infinity (x : float) :
  number x -> (neg_infinity <? x)%float = false -> x = neg_infinity.
Proof.
  intros Hx H. apply number_spec in Hx. rewrite ltb_spec in H.
  apply Prim2SF_inj. change (Prim2SF neg_infinity) with (S754_infinity true) in *.
  destruct (Prim2SF x) as [s|s| |s m e]; try congruence;
    try (destruct s); cbn in H; congruence.
Qed.

Lemma not_below_infinity (x : float) :
  number x -> (x <? infinity)%float = false -> x = infinity.
Proof.
  intros Hx H. apply number_spec in Hx. rewrite ltb_spec in H.
  apply Prim2SF_inj. change (Prim2SF infinity) with (S754_infinity false) in *.
  destruct (Prim2SF x) as [s|s| |s m e]; try congruence;
    try (destruct s); cbn in H; congruence.
Qed.

(** *** [Math.max] and [Math.min] of numbers *)

Lemma max_step_spec (h n : float) :
  number h -> number n ->
  number (F64.max_step h n)
  /\ (F64.max_step h n = h \/ F64.max_step h n = n)
  /\ (h <=? F64.max_step h n)%float = true
  /\ (n <=? F64.max_step h n)%float = true.
Proof.
  intros Hh Hn. unfold F64.max_step. rewrite Hh, Hn. cbn [orb].
  destruct (F64.is_pos_zero n && F64.is_neg_zero h) eqn:Z.
  - apply andb_true_iff in Z. destruct Z as [Zn Zh].
    apply andb_true_iff in Zn, Zh.
    repeat split; auto using leb_refl, zero_leb_zero; now apply zero_leb_zero.
  - destruct (h <? n)%float eqn:L;
      repeat split; auto using leb_refl, ltb_leb, not_ltb_leb.
Qed.

Lemma min_step_spec (l n : float) :
  number l -> number n ->
  number (F64.min_step l n)
  /\ (F64.min_step l n = l \/ F64.min_step l n = n)
  /\ (F64.min_step l n <=? l)%float = true
  /\ (F64.min_step l n <=? n)%float = true.
Proof.
  intros Hl Hn. unfold F64.min_step. rewrite Hl, Hn. cbn [orb].
  destruct (F64.is_neg_zero n && F64.is_pos_zero l) eqn:Z.
  - apply andb_true_iff in Z. destruct Z as [Zn Zl].
    apply andb_true_iff in Zn, Zl.
    repeat split; auto using leb_refl, zero_leb_zero; now apply zero_leb_zero.
  - destruct (n <? l)%float eqn:L;
      repeat split; auto using leb_refl, ltb_leb, not_ltb_leb.
Qed.

Lemma fold_max_step (l : list float) :
  forall h, number h -> Forall number l ->
    number (fold_left F64.max_step l h)
    /\ (fold_left F64.max_step l h = h \/ In (fold_left F64.max_step l h) l)
    /\ (h <=? fold_left F64.max_step l h)%float = true
    /\ (forall x, In x l -> (x <=? fold_left F64.max_step l h)%float = true).
Proof.
  induction l as [|n l IH]; intros h Hh Hl; cbn [fold_left].
  - repeat split; auto using leb_refl; try now intros x [].
  - inversion Hl as [|n' l' Hn Hl']; subst.
    destruct (max_step_spec h n Hh Hn) as (Hm & Hor & Hhm & Hnm).
    destruct (IH _ Hm Hl') as (Hr & Hin & Hmr & Hall).
    repeat split; trivial.
    + destruct Hin as [E|Hin]; [|right; now right].
      rewrite E. destruct Hor as [E'|E']; [now left | right; left; now symmetry].
    + apply (leb_trans h (F64.max_step h n)); trivial.
    + intros x [<-|Hx]; [|now apply Hall].
      apply (leb_trans n (F64.max_step h n)); trivial.
Qed.

Lemma fold_min_step (l : list float) :
  forall h, number h -> Forall number l ->
    number (fold_left F64.min_step l h)
    /\ (fold_left F64.min_step l h = h \/ In (fold_left F64.min_step l h) l)
    /\ (fold_left F64.min_step l h <=? h)%float = true
    /\ (forall x, In x l -> (fold_left F64.min_step l h <=? x)%float = true).
Proof.
  induction l as [|n l IH]; intros h Hh Hl; cbn [fold_left].
  - repeat split; auto using leb_refl; try now intros x [].
  - inversion Hl as [|n' l' Hn Hl']; subst.
    destruct (min_step_spec h n Hh Hn) as (Hm & Hor & Hhm & Hnm).
    destruct (IH _ Hm Hl') as (Hr & Hin & Hmr & Hall).
    repeat split; trivial.
    + destruct Hin as [E|Hin]; [|right; now right].
      rewrite E. destruct Hor as [E'|E']; [now left | right; left; now symmetry].
    + apply (leb_trans _ (F64.min_step h n) h); trivial.
    + intros x [<-|Hx]; [|now apply Hall].
      apply (leb_trans _ (F64.min_step h n) n); trivial.
Qed.

Lemma max_step_neg_infinity (x : float) :
  number x -> F64.max_step neg_infinity x = x.
Proof.
  intros Hx. unfold F64.max_step. rewrite Hx.
  change (is_nan neg_infinity) with false.
  change (F64.is_neg_zero neg_infinity) with false.
  rewrite andb_false_r. cbn [orb].
  destruct (neg_infinity <? x)%float eqn:L; [reflexivity|].
  symmetry. now apply not_above_neg_infinity.
Qed.

Lemma min_step_infinity (x : float) :
  number x -> F64.min_step infinity x = x.
Proof.
  intros Hx. unfold F64.min_step. rewrite Hx.
  change (is_nan infinity) with false.
  change (F64.is_pos_zero infinity) with false.
  rewrite andb_false_r. cbn [orb].
  destruct (x <? infinity)%float eqn:L; [reflexivity|].
  symmetry. now apply not_below_infinity.
Qed.

Lemma Math_max_greatest (l : list float) :
  l <> [] -> Forall number l -> greatest l (F64.Math_max l).
Proof.
  destruct l as [|x l]; [congruence|]. intros _ Hl.
  inversion Hl as [|x' l' Hx Hl']; subst.
  unfold F64.Math_max. cbn [fold_left]. rewrite max_step_neg_infinity by assumption.
  destruct (fold_max_step l x Hx Hl') as (_ & Hin & Hle & Hall).
  split.
  - destruct Hin as [E|Hin]; [left; now rewrite E | now right].
  - intros y [<-|Hy]; auto.
Qed.

Lemma Math_min_least (l : list float) :
  l <> [] -> Forall number l -> least l (F64.Math_min l).
Proof.
  destruct l as [|x l]; [congruence|]. intros _ Hl.
  inversion Hl as [|x' l' Hx Hl']; subst.
  unfold F64.Math_min. cbn [fold_left]. rewrite min_step_infinity by assumption.
  destruct (fold_min_step l x Hx Hl') as (_ & Hin & Hle & Hall).
  split.
  - destruct Hin as [E|Hin]; [left; now rewrite E | now right].
  - intros y [<-|Hy]; auto.
Qed.

(** *** Division by zero *)

Lemma is_finite_spec (x : float) :
  is_finite x = negb (SFnonfinite (Prim2SF x)).
Proof.
  unfold is_finite, is_nan, is_infinity.
  rewrite !FloatAxioms.eqb_spec, abs_spec.
  change (Prim2SF infinity) with (S754_infinity false).
  destruct (Prim2SF x) as [s|s| |s m e] eqn:E; try reflexivity;
    unfold SFeqb at 1; rewrite SFcompare_refl by discriminate;
    destruct s; reflexivity.
Qed.

Lemma neq_zero_false (x : float) :
  F64.neq x zero = false -> exists s, Prim2SF x = S754_zero s.
Proof.
  unfold F64.neq. intros H. apply negb_false_iff in H. now apply is_zero_spec.
Qed.

Lemma div_zero_nonfinite (x y : float) :
  F64.neq y zero = false -> is_finite (x / y) = false.
Proof.
  intros H. destruct (neq_zero_false y H) as [s E].
  rewrite is_finite_spec, div_spec, E.
  destruct (Prim2SF x) as [t|t| |t m e]; reflexivity.
Qed.

Lemma mul_three_zero (x : float) :
  F64.neq x zero = false -> F64.neq (x * F64.of_Z 3) zero = false.
Proof.
  intros H. destruct (neq_zero_false x H) as [s E].
  unfold F64.neq. apply negb_false_iff.
  rewrite FloatAxioms.eqb_spec, mul_spec, E.
  now destruct s.
Qed.

Lemma add_nonfinite (x y : float) :
  is_finite x = false -> is_finite (x + y) = false.
Proof.
  rewrite !is_finite_spec, !add_spec. intros H.
  destruct (Prim2SF x) as [s|s| |s m e]; try discriminate;
    destruct (Prim2SF y) as [t|t| |t n d]; try reflexivity;
    repeat match goal with b : bool |- _ => destruct b end; reflexivity.
Qed.

Lemma Math_round_nonfinite (x : float) :
  is_finite x = false -> F64.Math_round x = x.
Proof.
  rewrite is_finite_spec. unfold F64.Math_round.
  destruct (Prim2SF x) as [s|s| |s m e]; try reflexivity. discriminate.
Qed.

End F64Facts.
Import F64Facts.

(** A first vertex with a NaN coordinate poisons every cross term, hence
    the three sums and both coordinates of the result. *)
Section NaNAnchor.
Variable a : Coord float.
Hypothesis Hnan : is_open a a = true.

Lemma anchor_has_nan : lng a = nan \/ lat a = nan.
Proof.
  unfold is_open in Hnan. apply orb_true_iff in Hnan.
  destruct Hnan as [H|H]; [left|right]; now apply neq_refl_true.
Qed.

Lemma cross_nan_anchor (p1 p2 : Coord float) : cross a p1 p2 = nan.
Proof.
  unfold cross; cbn [sub mul float_number].
  destruct anchor_has_nan as [H|H]; rewrite H;
    now autorewrite with nan_arith.
Qed.

Lemma step_nan_anchor (s : sums) pr : step a s pr = nan_sums.
Proof.
  unfold step, loop_body. rewrite cross_nan_anchor.
  cbn [add mul float_number]. now autorewrite with nan_arith.
Qed.

Lemma fold_step_nan_anchor (prs : list (Coord float * Coord float)) :
  forall s, prs <> [] -> fold_left (step a) prs s = nan_sums.
Proof.
  induction prs as [|pr prs IH]; intros s Hne; [congruence|].
  cbn [fold_left]. rewrite step_nan_anchor.
  destruct prs as [|pr' prs]; [reflexivity|].
  apply IH. discriminate.
Qed.

Lemma ring_sums_nan_anchor (ring : list (Coord float)) :
  ring <> [] -> ring_sums ring a = nan_sums.
Proof.
  intros Hne. unfold ring_sums. apply fold_step_nan_anchor.
  destruct ring; [congruence | discriminate].
Qed.

Lemma centroid_nan_anchor (ring : list (Coord float)) :
  ring <> [] ->
  centroid_of_sums a (ring_sums ring a) = {| lng := nan; lat := nan |}.
Proof.
  intros Hne. rewrite ring_sums_nan_anchor by assumption.
  unfold centroid_of_sums, nan_sums; cbn [area lngSum latSum add mul div float_number].
  now autorewrite with nan_arith.
Qed.
End NaNAnchor.

(** ** Exact arithmetic: the centroid of a fan of equally oriented
       triangles

    Without rounding, the sums weigh the centroid of each triangle
    [(first, p2, p1)] by its signed area [cross first p1 p2].  When no two
    of these areas have opposite signs the result is a convex combination
    of points inside the bounding box. *)

Module ExactFacts.
Local Open Scope Q_scope.

Lemma max_step_le (h n : Q) : h <= Exact.max_step h n /\ n <= Exact.max_step h n.
Proof.
  unfold Exact.max_step. destruct (Qle_bool n h) eqn:E.
  - apply Qle_bool_iff in E. split; [apply Qle_refl | exact E].
  - split; [|apply Qle_refl].
    destruct (Qlt_le_dec h n) as [H|H]; [now apply Qlt_le_weak|].
    apply Qle_bool_iff in H. congruence.
Qed.

Lemma min_step_le (h n : Q) : Exact.min_step h n <= h /\ Exact.min_step h n <= n.
Proof.
  unfold Exact.min_step. destruct (Qle_bool h n) eqn:E.
  - apply Qle_bool_iff in E. split; [apply Qle_refl | exact E].
  - split; [|apply Qle_refl].
    destruct (Qlt_le_dec n h) as [H|H]; [now apply Qlt_le_weak|].
    apply Qle_bool_iff in H. congruence.
Qed.

Lemma fold_max_step_le (l : list Q) :
  forall h, h <= fold_left Exact.max_step l h
            /\ forall x, In x l -> x <= fold_left Exact.max_step l h.
Proof.
  induction l as [|n l IH]; intros h; cbn [fold_left].
  - split; [apply Qle_refl | intros x []].
  - destruct (max_step_le h n) as [Hh Hn].
    destruct (IH (Exact.max_step h n)) as [Hm Hall]. split.
    + eapply Qle_trans; eassumption.
    + intros x [<-|Hx]; [eapply Qle_trans; eassumption | now apply Hall].
Qed.

Lemma fold_min_step_le (l : list Q) :
  forall h, fold_left Exact.min_step l h <= h
            /\ forall x, In x l -> fold_left Exact.min_step l h <= x.
Proof.
  induction l as [|n l IH]; intros h; cbn [fold_left].
  - split; [apply Qle_refl | intros x []].
  - destruct (min_step_le h n) as [Hh Hn].
    destruct (IH (Exact.min_step h n)) as [Hm Hall]. split.
    + eapply Qle_trans; eassumption.
    + intros x [<-|Hx]; [eapply Qle_trans; eassumption | now apply Hall].
Qed.

Lemma Math_max_upper (l : list Q) (x : Q) : In x l -> x <= Exact.Math_max l.
Proof.
  destruct l as [|y l]; [intros []|]. unfold Exact.Math_max.
  destruct (fold_max_step_le l y) as [Hy Hall].
  intros [<-|Hx]; auto.
Qed.

Lemma Math_min_lower (l : list Q) (x : Q) : In x l -> Exact.Math_min l <= x.
Proof.
  destruct l as [|y l]; [intros []|]. unfold Exact.Math_min.
  destruct (fold_min_step_le l y) as [Hy Hall].
  intros [<-|Hx]; auto.
Qed.

(** One step of the loop keeps [bounded]; the quotient of lines 254-255
    then lies strictly between [lo] and [hi]. *)
Section OneAxis.
Variable a : Coord Q.
Variables lo hi sg : Q.
Variable x : Coord Q -> Q.

Local Abbreviation inside := (ExactAxis.inside lo hi x).
Local Abbreviation term := (ExactAxis.term a x).
Local Abbreviation oriented := (ExactAxis.oriented a sg).
Local Abbreviation bounded := (ExactAxis.bounded a lo hi sg x).
Local Abbreviation fold_area := (ExactAxis.fold_area a).
Local Abbreviation fold_term := (ExactAxis.fold_term a x).

(** A triangle whose three vertices share the coordinate has no area. *)
Hypothesis flat :
  forall p1 p2, x p1 == x a -> x p2 == x a -> cross a p1 p2 == 0.
Hypothesis Ha : inside a.
Hypothesis Hsg : sg == 1 \/ sg == -1.

Lemma bounded_step (A W : Q) (pr : Coord Q * Coord Q) :
  inside (fst pr) -> inside (snd pr) -> oriented pr ->
  bounded A W ->
  bounded (A + cross a (fst pr) (snd pr)) (W + term pr).
Proof.
  unfold ExactAxis.inside, ExactAxis.bounded, ExactAxis.term, ExactAxis.oriented in *.
  destruct pr as [p1 p2]; cbn [fst snd].
  intros [L1 H1] [L2 H2] Hf (HA & Blo & Bhi & Bstrict).
  destruct Ha as [La Hia].
  pose proof (flat p1 p2) as Hflat.
  set (f := cross a p1 p2) in *.
  destruct (Qeq_dec f 0) as [Ef|Nf].
  - rewrite Ef. repeat split; lra.
  - assert (Hpos : 0 < sg * f).
    { destruct Hsg as [E|E]; rewrite E in *; lra. }
    assert (Hup : 0 < 3 * (hi - x a) - (x p1 + x p2 - 2 * x a)) by lra.
    assert (Hdn : 0 < (x p1 + x p2 - 2 * x a) - 3 * (lo - x a)) by lra.
    pose proof (Qmult_lt_0_compat _ _ Hup Hpos) as P1.
    pose proof (Qmult_lt_0_compat _ _ Hdn Hpos) as P2.
    repeat split; lra.
Qed.

Lemma bounded_fold (prs : list (Coord Q * Coord Q)) :
  Forall (fun pr => inside (fst pr) /\ inside (snd pr) /\ oriented pr) prs ->
  forall A W, bounded A W -> bounded (fold_area prs A) (fold_term prs W).
Proof.
  induction 1 as [|pr prs (H1 & H2 & H3) _ IH]; intros A W HB; [exact HB|].
  cbn [ExactAxis.fold_area ExactAxis.fold_term fold_left]. apply IH.
  now apply bounded_step.
Qed.

Lemma bounded_start : bounded 0 0.
Proof. unfold ExactAxis.bounded. repeat split; lra. Qed.

(** Lines 254-255 on one axis. *)
Lemma bounded_quotient (A W : Q) :
  bounded A W -> ~ A == 0 ->
  lo < W / (A * 3) + x a /\ W / (A * 3) + x a < hi.
Proof.
  intros (HA & _ & _ & Hstrict) NA. destruct (Hstrict NA) as [B1 B2].
  assert (Hq : W / (A * 3) == (sg * W) / ((sg * A) * 3)).
  { destruct Hsg as [E|E]; rewrite E; field; lra. }
  assert (Hpos : 0 < (sg * A) * 3).
  { destruct Hsg as [E|E]; rewrite E in *; lra. }
  rewrite Hq. split.
  - assert (lo - x a < sg * W / (sg * A * 3)); [|lra].
    apply Qlt_shift_div_l; [exact Hpos | lra].
  - assert (sg * W / (sg * A * 3) < hi - x a); [|lra].
    apply Qlt_shift_div_r; [exact Hpos | lra].
Qed.
End OneAxis.
End ExactFacts.

(** ** The centroid calculator *)

(** C1: on a polygon of at least three vertices whose shoelace area is not
    zero, [get_polygon_centroid] returns the point of the first-vertex
    anchored shoelace formula: cross terms over the pairs (current,
    previous) of the closed ring, [denom = area * 3], and each coordinate
    [sum / denom + first].  The square (0,0),(0,2),(2,2),(2,0) gives (1,1)
    and the triangle (0,0),(4,0),(0,3) gives (4/3, 1). *)
Theorem centroid_is_shoelace_formula :
  (forall (pts : list (Coord float)) (first : Coord float),
      nth_error pts 0 = Some first ->
      3 <= length pts ->
      (spec_area first (spec_ring pts first) != lit 0)%js = true ->
      snd (get_polygon_centroid pts) = Normal (spec_centroid pts first))
  /\ snd (get_polygon_centroid square) = Normal {| lng := 1%float; lat := 1%float |}
  /\ snd (get_polygon_centroid triangle)
     = Normal {| lng := (4 / 3)%float; lat := 1%float |}.
Proof.
  split; [|split; reflexivity].
  intros pts first Hfirst Hlen _.
  destruct pts as [|a l]; [discriminate|].
  cbn [nth_error] in Hfirst. injection Hfirst as ->.
  rewrite get_polygon_centroid_cons. cbn [snd].
  now rewrite centroid_of_ring_sums.
Qed.

Lemma centroid_is_shoelace_formula_witness :
  snd (get_polygon_centroid triangle) = Normal (spec_centroid triangle (pt 0 0)).
Proof.
  apply (proj1 centroid_is_shoelace_formula triangle (pt 0 0)).
  - reflexivity.
  - cbn. lia.
  - reflexivity.
Defined.

Lemma spec_ring_closed (a : Coord float) (l : list (Coord float)) :
  is_open a a = false ->
  spec_ring (spec_ring (a :: l) a) a = spec_ring (a :: l) a.
Proof.
  intros Ha. unfold spec_ring at 2.
  destruct (is_open a (last (a :: l) a)) eqn:E; unfold spec_ring.
  - now rewrite last_last, Ha, E.
  - now rewrite E.
Qed.

(** The second of two consecutive calls returns what the first did. *)
Lemma centroid_after_closure (pts : list (Coord float)) :
  pts <> [] ->
  snd (get_polygon_centroid (closure pts)) = snd (get_polygon_centroid pts).
Proof.
  destruct pts as [|a l]; [congruence|]. intros _.
  rewrite (closure_head a l), !get_polygon_centroid_cons.
  rewrite <- (closure_head a l), closure_cons. cbn [snd].
  destruct (is_open a a) eqn:Ha.
  - rewrite !centroid_nan_anchor; trivial;
      unfold spec_ring; repeat destruct (is_open _ _);
      try discriminate; now destruct l.
  - now rewrite spec_ring_closed.
Qed.

(** C7: pre-applying the closure does not change the result: on the closed
    ring of a polygon, that is the polygon followed by its first vertex
    when the two ends differ, the calculator returns the same point as on
    the polygon itself. *)
Theorem closed_polygon_same_centroid (pts : list (Coord float))
        (first last : Coord float) :
  nth_error pts 0 = Some first ->
  nth_error pts (length pts - 1) = Some last ->
  (is_open first last = true -> closure pts = pts ++ [first])
  /\ (is_open first last = false -> closure pts = pts)
  /\ snd (get_polygon_centroid (closure pts)) = snd (get_polygon_centroid pts).
Proof.
  intros Hf Hl. unfold closure at 1 2. rewrite Hf, Hl.
  split; [now intros -> | split; [now intros -> |]].
  apply centroid_after_closure. intros ->. discriminate.
Qed.

Lemma closed_polygon_same_centroid_witness :
  closure square = square ++ [pt 0 0]
  /\ snd (get_polygon_centroid (square ++ [pt 0 0])) = snd (get_polygon_centroid square).
Proof.
  destruct (closed_polygon_same_centroid square (pt 0 0) (pt 2 0)
              eq_refl eq_refl) as (Hopen & _ & Hsame).
  rewrite <- (Hopen eq_refl). split; [reflexivity | exact Hsame].
Defined.

(** ** The caller's array *)

(** C4 (as stated, refuted): the call leaves the caller's square with a
    fifth element, and so does the whole operation. *)
Lemma caller_polygon_is_mutated :
  is_open (pt 0 0) (pt 2 0) = true
  /\ length square = 4
  /\ fst (get_polygon_centroid square) = square ++ [pt 0 0]
  /\ length (polygon (snd (ndviGen sample_service "key" 256%float 0%float 1%float
                                   {| polygon := square; calls := [] |}))) = 5.
Proof. repeat split. Qed.

Section CallerArray.
Context {num : Type} {N : JsNumber num}.

Lemma closure_open (pts : list (Coord num)) (first last : Coord num) :
  nth_error pts 0 = Some first ->
  nth_error pts (length pts - 1) = Some last ->
  closure pts = if is_open first last then pts ++ [first] else pts.
Proof. intros Hf Hl. unfold closure. now rewrite Hf, Hl. Qed.

Lemma closure_twice (pts : list (Coord num)) (first last : Coord num) :
  nth_error pts 0 = Some first ->
  nth_error pts (length pts - 1) = Some last ->
  is_open first last = true ->
  closure (closure pts)
  = if is_open first first then pts ++ [first; first] else pts ++ [first].
Proof.
  intros Hf Hl Hopen. rewrite (closure_open pts first last Hf Hl), Hopen.
  destruct pts as [|a l]; [discriminate|].
  cbn [nth_error] in Hf. injection Hf as ->.
  change ((first :: l) ++ [first]) with (first :: (l ++ [first])).
  rewrite closure_cons. unfold spec_ring.
  change (first :: l ++ [first]) with ((first :: l) ++ [first]).
  rewrite last_last. destruct (is_open first first); [|reflexivity].
  now rewrite <- app_assoc.
Qed.

Lemma runAnalysis_polygon (ee : collaborator) (width dateStart dateEnd : num)
      (pts : list (Coord num)) (cs : list ee_call) :
  polygon (snd (runAnalysis ee width dateStart dateEnd
                            {| polygon := pts; calls := cs |}))
  = closure (closure pts).
Proof.
  destruct pts as [|a l]; [reflexivity|].
  destruct (get_polygon_centroid_returns (a :: l)) as [c1 H1]; [discriminate|].
  destruct (get_polygon_centroid_returns (closure (a :: l))) as [c2 H2].
  { apply closure_nonempty. discriminate. }
  destruct (selected ee dateStart dateEnd) as [props|] eqn:Hsel.
  - now rewrite (runAnalysis_ok _ width _ _ _ _ _ _ _ cs _ H1 H2 Hsel).
  - now rewrite (runAnalysis_no_image _ width _ _ _ _ _ _ _ cs H1 H2 Hsel).
Qed.

(** C4 (amended): [get_polygon_centroid] pushes onto the array it is
    given.  For a polygon whose ends differ the call leaves the caller's
    array one element longer, the first vertex appended; after the whole
    operation the array holds that closed ring (with a second copy when a
    coordinate of the first vertex is NaN), and it is untouched only when
    the key is rejected. *)
Theorem closure_pushes_onto_caller_array
        (pts : list (Coord num)) (first last : Coord num) :
  nth_error pts 0 = Some first ->
  nth_error pts (length pts - 1) = Some last ->
  is_open first last = true ->
  fst (get_polygon_centroid pts) = pts ++ [first]
  /\ forall (ee : collaborator) (devKey : string) (width dateStart dateEnd : num)
            (cs : list ee_call),
      polygon (snd (ndviGen ee devKey width dateStart dateEnd
                            {| polygon := pts; calls := cs |}))
      = match verify ee devKey with
        | Some _ => pts
        | None => if is_open first first then pts ++ [first; first]
                  else pts ++ [first]
        end.
Proof.
  intros Hf Hl Hopen. split.
  - unfold get_polygon_centroid. now rewrite Hf, Hl, Hopen.
  - intros ee devKey width dateStart dateEnd cs.
    rewrite <- (closure_twice pts first last Hf Hl Hopen).
    unfold ndviGen. cbn [polygon calls].
    destruct (verify ee devKey); [reflexivity|].
    rewrite <- (runAnalysis_polygon ee width dateStart dateEnd pts
                  (cs ++ [ee_authenticateViaPrivateKey devKey])).
    now destruct (runAnalysis _ _ _ _ _) as [[r|e] w2].
Qed.
End CallerArray.

Lemma closure_pushes_onto_caller_array_witness :
  fst (get_polygon_centroid square) = square ++ [pt 0 0].
Proof.
  apply (closure_pushes_onto_caller_array square (pt 0 0) (pt 2 0));
    reflexivity.
Defined.

(** ** The authentication gate and the image query *)

(** C6 (as stated, refuted): with an empty collection the run ends in the
    [TypeError] of reading [properties] of [null]; the promise is neither
    resolved nor rejected with an error of its own. *)
Lemma empty_collection_null_dereference :
  selected empty_service 0%float 1%float = None
  /\ fst (ndviGen empty_service "key" 256%float 0%float 1%float
                  {| polygon := square; calls := [] |})
     = Unsettled (TypeError "cannot read property 'properties' of null").
Proof. split; reflexivity. Qed.

Section Gate.
Context {num : Type} {N : JsNumber num}.

Lemma ndviGen_verified (ee : collaborator) (devKey : string)
      (width dateStart dateEnd : num) (w : world) :
  verify ee devKey = None ->
  let w1 := {| polygon := polygon w;
               calls := calls w ++ [ee_authenticateViaPrivateKey devKey] |} in
  ndviGen ee devKey width dateStart dateEnd w
  = (settle (fst (runAnalysis ee width dateStart dateEnd w1)),
     snd (runAnalysis ee width dateStart dateEnd w1)).
Proof.
  intros Hv w1. unfold ndviGen. rewrite Hv. fold w1.
  now destruct (runAnalysis ee width dateStart dateEnd w1) as [[r|e] w2].
Qed.

(** C5: when the verification fails the promise is rejected with the
    authentication error and nothing but the verification has been
    issued: [runAnalysis] has not run, the polygon is untouched.  When it
    succeeds [runAnalysis] runs once, after the verification: the calls
    are the verification, then [ee.initialize], then the rest of that one
    run, which holds no further [ee.initialize]. *)
Theorem authentication_gates_orchestrator
        (ee : collaborator) (devKey : string) (width dateStart dateEnd : num)
        (w : world) :
  let w1 := {| polygon := polygon w;
               calls := calls w ++ [ee_authenticateViaPrivateKey devKey] |} in
  (forall e, verify ee devKey = Some e ->
             ndviGen ee devKey width dateStart dateEnd w
             = (Rejected ("Authentication error: " ++ e), w1))
  /\ (verify ee devKey = None ->
      ndviGen ee devKey width dateStart dateEnd w
      = (settle (fst (runAnalysis ee width dateStart dateEnd w1)),
         snd (runAnalysis ee width dateStart dateEnd w1))
      /\ exists cs',
          calls (snd (ndviGen ee devKey width dateStart dateEnd w))
          = calls w ++ ee_authenticateViaPrivateKey devKey :: ee_initialize :: cs'
          /\ length (filter is_initialize cs') = 0).
Proof.
  intros w1. split.
  - intros e He. unfold ndviGen. now rewrite He.
  - intros Hv. split; [now apply ndviGen_verified|].
    rewrite (ndviGen_verified ee devKey width dateStart dateEnd w Hv).
    cbn [snd].
    destruct (runAnalysis_calls ee width dateStart dateEnd w1) as (cs' & E & Hn).
    exists cs'. split; [|exact Hn].
    unfold w1 in *. rewrite E. cbn [calls]. now rewrite <- app_assoc.
Qed.

(** C6 (amended): when the filtered collection is empty no error of its
    own is raised.  The run issues the query, [visualize] and [clip] as
    usual and fails at the first metadata read, on [properties] of the
    [null] that [getInfo()] answers; the exception escapes the success
    callback and the promise never settles. *)
Theorem empty_collection_fails_at_first_metadata_read
        (ee : collaborator) (devKey : string) (width dateStart dateEnd : num)
        (pts : list (Coord num)) (cs : list ee_call) :
  pts <> [] ->
  verify ee devKey = None ->
  selected ee dateStart dateEnd = None ->
  exists c,
    ndviGen ee devKey width dateStart dateEnd {| polygon := pts; calls := cs |}
    = (Unsettled (TypeError "cannot read property 'properties' of null"),
       {| polygon := closure (closure pts);
          calls := cs ++ ee_authenticateViaPrivateKey devKey
                      :: query_calls (derive pts width) c dateStart dateEnd |}).
Proof.
  intros Hne Hv Hsel.
  destruct (get_polygon_centroid_returns pts Hne) as [c1 H1].
  destruct (get_polygon_centroid_returns (closure pts)) as [c2 H2].
  { now apply closure_nonempty. }
  exists {| lng := lng c1; lat := lat c2 |}.
  rewrite (ndviGen_verified ee devKey width dateStart dateEnd _ Hv).
  cbn [polygon calls].
  rewrite (runAnalysis_no_image _ width _ _ _ _ _ _ _ _ H1 H2 Hsel).
  cbn [fst snd settle]. now rewrite <- app_assoc.
Qed.

(** C9: the record of a successful invocation lists the bounds as the
    maximal corner followed by the minimal corner, and carries the start
    time, the end time and the index of the selected image as they were
    read, by three [getInfo()] reads. *)
Theorem result_bounds_and_metadata
        (ee : collaborator) (devKey : string) (width dateStart dateEnd : num)
        (w w' : world) (r : result) :
  ndviGen ee devKey width dateStart dateEnd w = (Resolved r, w') ->
  exists props cs',
    selected ee dateStart dateEnd = Some props
    /\ bounds r
       = [ {| lng := Math_max (map lng (polygon w));
              lat := Math_max (map lat (polygon w)) |};
           {| lng := Math_min (map lng (polygon w));
              lat := Math_min (map lat (polygon w)) |} ]
    /\ time_start r = system_time_start props
    /\ time_end r = system_time_end props
    /\ index r = system_index props
    /\ calls w' = calls w ++ cs'
    /\ length (filter is_getInfo cs') = 3.
Proof.
  intros Hrun. destruct w as [pts cs].
  destruct (verify ee devKey) as [e|] eqn:Hv.
  { unfold ndviGen in Hrun. rewrite Hv in Hrun. discriminate. }
  rewrite (ndviGen_verified ee devKey width dateStart dateEnd _ Hv) in Hrun.
  cbn [polygon calls] in *.
  destruct pts as [|a l].
  { rewrite runAnalysis_empty in Hrun. discriminate. }
  destruct (get_polygon_centroid_returns (a :: l)) as [c1 H1]; [discriminate|].
  destruct (get_polygon_centroid_returns (closure (a :: l))) as [c2 H2].
  { apply closure_nonempty. discriminate. }
  destruct (selected ee dateStart dateEnd) as [props|] eqn:Hsel.
  - rewrite (runAnalysis_ok _ width _ _ _ _ _ _ _ _ _ H1 H2 Hsel) in Hrun.
    cbn [fst snd settle] in Hrun. injection Hrun as <- <-.
    exists props. eexists. repeat split.
    + cbn [calls]. rewrite <- app_assoc. reflexivity.
    + reflexivity.
  - rewrite (runAnalysis_no_image _ width _ _ _ _ _ _ _ _ H1 H2 Hsel) in Hrun.
    discriminate.
Qed.
End Gate.

Lemma authentication_gates_orchestrator_witness :
  exists cs',
    calls (snd (ndviGen sample_service "key" 256%float 0%float 1%float
                        {| polygon := square; calls := [] |}))
    = [] ++ ee_authenticateViaPrivateKey "key" :: ee_initialize :: cs'
    /\ length (filter is_initialize cs') = 0.
Proof.
  apply (authentication_gates_orchestrator sample_service "key"
           256%float 0%float 1%float {| polygon := square; calls := [] |}).
  reflexivity.
Defined.

Lemma empty_collection_fails_at_first_metadata_read_witness :
  exists c,
    ndviGen empty_service "key" 256%float 0%float 1%float
            {| polygon := square; calls := [] |}
    = (Unsettled (TypeError "cannot read property 'properties' of null"),
       {| polygon := closure (closure square);
          calls := [] ++ ee_authenticateViaPrivateKey "key"
                      :: query_calls (derive square 256%float) c 0%float 1%float |}).
Proof.
  apply (empty_collection_fails_at_first_metadata_read empty_service "key"
           256%float 0%float 1%float square []).
  - discriminate.
  - reflexivity.
  - reflexivity.
Defined.

Lemma result_bounds_and_metadata_witness :
  exists props cs',
    selected sample_service 0%float 1%float = Some props
    /\ bounds (result_of sample_service (derive square 256%float)
                         {| lng := 1%float; lat := 1%float |}
                         {| system_time_start := 1%float;
                            system_time_end := 2%float;
                            system_index := "20200101" |})
       = [ {| lng := Math_max (map lng square); lat := Math_max (map lat square) |};
           {| lng := Math_min (map lng square); lat := Math_min (map lat square) |} ]
    /\ 1%float = system_time_start props
    /\ 2%float = system_time_end props
    /\ "20200101"%string = system_index props
    /\ calls (snd (ndviGen sample_service "key" 256%float 0%float 1%float
                           {| polygon := square; calls := [] |}))
       = [] ++ cs'
    /\ length (filter is_getInfo cs') = 3.
Proof.
  apply (result_bounds_and_metadata sample_service "key" 256%float 0%float 1%float
           {| polygon := square; calls := [] |}).
  reflexivity.
Defined.

(** ** One invocation in binary64 *)

Lemma runAnalysis_binary64 (ee : collaborator) (width dateStart dateEnd : float)
      (pts : list (Coord float)) (first : Coord float) (cs : list ee_call) :
  nth_error pts 0 = Some first ->
  let c := centroid_of_sums first (ring_sums (closure pts) first) in
  snd (get_polygon_centroid pts) = Normal c
  /\ snd (runAnalysis ee width dateStart dateEnd {| polygon := pts; calls := cs |})
     = {| polygon := closure (closure pts);
          calls := cs ++ match selected ee dateStart dateEnd with
                         | Some _ => run_calls (derive pts width) c dateStart dateEnd
                         | None => query_calls (derive pts width) c dateStart dateEnd
                         end |}
  /\ fst (runAnalysis ee width dateStart dateEnd {| polygon := pts; calls := cs |})
     = match selected ee dateStart dateEnd with
       | Some props => Normal (result_of ee (derive pts width) c props)
       | None => Throw (TypeError "cannot read property 'properties' of null")
       end.
Proof.
  intros Hf c. destruct pts as [|a l]; [discriminate|].
  cbn [nth_error] in Hf. injection Hf as ->.
  assert (H1 : get_polygon_centroid (first :: l) = (closure (first :: l), Normal c)).
  { rewrite get_polygon_centroid_cons. unfold c. now rewrite closure_cons. }
  assert (H2 : get_polygon_centroid (closure (first :: l))
               = (closure (closure (first :: l)), Normal c)).
  { destruct (get_polygon_centroid_returns (closure (first :: l))) as [c2 H2].
    { apply closure_nonempty. discriminate. }
    rewrite H2. f_equal.
    pose proof (centroid_after_closure (first :: l)) as E.
    rewrite H1, H2 in E. cbn [snd] in E. apply E. discriminate. }
  split; [now rewrite H1|].
  assert (Ec : {| lng := lng c; lat := lat c |} = c) by now destruct c.
  destruct (selected ee dateStart dateEnd) as [props|] eqn:Hsel.
  - rewrite (runAnalysis_ok _ width _ _ _ _ _ _ _ cs _ H1 H2 Hsel).
    rewrite Ec. split; reflexivity.
  - rewrite (runAnalysis_no_image _ width _ _ _ _ _ _ _ cs H1 H2 Hsel).
    rewrite Ec. split; reflexivity.
Qed.

(** C10: every field of the record of a run is the one derived from the
    polygon as the caller passed it.  The bounds, the dimensions and the
    ring sent with [clip] and [getThumbURL] are taken before the first
    centroid call; that call closes the shared array and the second call,
    on the closed array, returns the same point. *)
Theorem result_as_if_from_original_polygon
        (ee : collaborator) (targetWidth dateStart dateEnd : float)
        (pts : list (Coord float)) (cs : list ee_call)
        (r : result) (w' : world) :
  runAnalysis ee targetWidth dateStart dateEnd {| polygon := pts; calls := cs |}
  = (Normal r, w') ->
  let g := derive pts targetWidth in
  snd (get_polygon_centroid pts) = Normal (centroid r)
  /\ snd (get_polygon_centroid (fst (get_polygon_centroid pts)))
     = snd (get_polygon_centroid pts)
  /\ width r = dimensionLng g
  /\ height r = dimensionLat g
  /\ bounds r = [ {| lng := maxLng g; lat := maxLat g |};
                  {| lng := minLng g; lat := minLat g |} ]
  /\ coord g = map (fun a => [lng a; lat a]) pts
  /\ (exists cs', calls w' = cs ++ cs' /\ polygon_rings cs' = [coord g; coord g])
  /\ fst (get_polygon_centroid pts) = closure pts
  /\ polygon w' = closure (closure pts).
Proof.
  intros Hrun g.
  destruct pts as [|a l].
  { rewrite runAnalysis_empty in Hrun. discriminate. }
  destruct (runAnalysis_binary64 ee targetWidth dateStart dateEnd (a :: l) a cs eq_refl)
    as (Hc & Hw & Hr).
  rewrite Hrun in Hw, Hr. cbn [fst snd] in Hw, Hr.
  destruct (selected ee dateStart dateEnd) as [props|]; [|discriminate].
  injection Hr as ->. subst w'. cbn [centroid width height bounds polygon calls result_of].
  destruct (get_polygon_centroid_returns (a :: l)) as [c1 H1]; [discriminate|].
  assert (E : fst (get_polygon_centroid (a :: l)) = closure (a :: l))
    by now rewrite H1.
  split; [exact Hc|].
  split; [rewrite E; apply centroid_after_closure; discriminate|].
  do 4 (split; [reflexivity|]).
  split; [eexists; split; reflexivity|].
  split; [exact E | reflexivity].
Qed.

Lemma result_as_if_from_original_polygon_witness :
  snd (get_polygon_centroid square) = Normal {| lng := 1%float; lat := 1%float |}
  /\ fst (get_polygon_centroid square) = closure square.
Proof.
  assert (Hrun : exists r w',
             runAnalysis sample_service 256%float 0%float 1%float
                         {| polygon := square; calls := [] |} = (Normal r, w')
             /\ centroid r = {| lng := 1%float; lat := 1%float |}).
  { eexists. eexists. split; [vm_compute; reflexivity | reflexivity]. }
  destruct Hrun as (r & w' & Hrun & Hc).
  destruct (result_as_if_from_original_polygon sample_service
              256%float 0%float 1%float square [] r w' Hrun)
    as (H1 & _ & _ & _ & _ & _ & _ & H2 & _).
  split; [now rewrite <- Hc | exact H2].
Defined.

(** ** Degenerate polygons *)

(** C2 (as stated, refuted): three vertices on one meridian.  The
    longitude extent and the area are zero, yet the operation resolves,
    with height [Infinity] and a centroid of NaN, after all its calls to
    the service. *)
Lemma degenerate_polygon_resolves :
  let g := derive sliver 100%float in
  (maxLng g - minLng g != lit 0)%js = false
  /\ (area (ring_sums (closure sliver) (pt 0 0)) != lit 0)%js = false
  /\ exists r w',
      ndviGen sample_service "key" 100%float 0%float 1%float
              {| polygon := sliver; calls := [] |} = (Resolved r, w')
      /\ height r = infinity
      /\ centroid r = {| lng := nan; lat := nan |}
      /\ length (calls w') = 16.
Proof.
  cbv zeta. split; [vm_compute; reflexivity|]. split; [vm_compute; reflexivity|].
  eexists. eexists. split; [vm_compute; reflexivity|].
  repeat split.
Qed.

(** C2 (amended): no degenerate polygon is rejected.  With an accepted key
    and an image in range the operation resolves for every non-empty
    polygon.  When the longitude extent is zero the height it returns is
    not finite (Infinity or NaN), when the area is zero neither coordinate
    of the centroid is, and these values have been sent to the service, in
    [ee.Geometry.Point] and [getThumbURL]. *)
Theorem degenerate_polygon_not_rejected
        (ee : collaborator) (devKey : string) (targetWidth dateStart dateEnd : float)
        (pts : list (Coord float)) (first : Coord float) (cs : list ee_call)
        (props : image_properties) :
  nth_error pts 0 = Some first ->
  verify ee devKey = None ->
  selected ee dateStart dateEnd = Some props ->
  let g := derive pts targetWidth in
  exists r w',
    ndviGen ee devKey targetWidth dateStart dateEnd {| polygon := pts; calls := cs |}
    = (Resolved r, w')
    /\ ((maxLng g - minLng g != lit 0)%js = false -> is_finite (height r) = false)
    /\ ((area (ring_sums (closure pts) first) != lit 0)%js = false ->
        is_finite (lng (centroid r)) = false /\ is_finite (lat (centroid r)) = false)
    /\ In (ee_Geometry_Point [lng (centroid r); lat (centroid r)]) (calls w')
    /\ In (ee_getThumbURL [width r; height r]) (calls w').
Proof.
  intros Hf Hv Hsel g.
  rewrite (ndviGen_verified ee devKey targetWidth dateStart dateEnd _ Hv).
  cbn [polygon calls].
  destruct (runAnalysis_binary64 ee targetWidth dateStart dateEnd pts first
              (cs ++ [ee_authenticateViaPrivateKey devKey]) Hf) as (_ & Hw & Hr).
  rewrite Hsel in Hw, Hr. rewrite Hw, Hr. cbn [settle].
  eexists. eexists. split; [reflexivity|].
  cbn [height width centroid result_of calls]. repeat split.
  - intros Hz. unfold g, derive. cbn [dimensionLat].
    rewrite Math_round_nonfinite; now apply div_zero_nonfinite.
  - unfold centroid_of_sums. cbn [lng]. apply add_nonfinite.
    apply div_zero_nonfinite. now apply mul_three_zero.
  - unfold centroid_of_sums. cbn [lat]. apply add_nonfinite.
    apply div_zero_nonfinite. now apply mul_three_zero.
  - apply in_or_app. right. unfold run_calls, query_calls. cbn. auto.
  - apply in_or_app. right. unfold run_calls, query_calls. cbn. auto 20.
Qed.

Lemma degenerate_polygon_not_rejected_witness :
  exists r w',
    ndviGen sample_service "key" 100%float 0%float 1%float
            {| polygon := sliver; calls := [] |} = (Resolved r, w')
    /\ is_finite (height r) = false
    /\ is_finite (lng (centroid r)) = false.
Proof.
  destruct (degenerate_polygon_not_rejected sample_service "key"
              100%float 0%float 1%float sliver (pt 0 0) [] _
              eq_refl eq_refl eq_refl) as (r & w' & Hrun & Hh & Hc & _).
  exists r, w'. split; [exact Hrun|]. split.
  - apply Hh. reflexivity.
  - apply Hc. reflexivity.
Defined.

(** ** Bounds and dimensions *)



(** ** The centroid and the bounding box *)


Section ExactCentroid.
Import ExactAxis ExactFacts.
Local Open Scope Q_scope.

Variable first : Coord Q.
Variable l : list (Coord Q).

Local Abbreviation pts := (first :: l).
Local Abbreviation ring := (closure (first :: l)).
Local Abbreviation prs := (spec_pairs (closure (first :: l)) first).

Lemma ring_vertex_in_polygon (i : nat) : In (nth i ring first) pts.
Proof.
  assert (Hsub : forall p, In p ring -> In p pts).
  { intros p. rewrite closure_cons. unfold spec_ring.
    destruct (is_open _ _); [|trivial].
    intros H. apply in_app_or in H. destruct H as [H|[<-|[]]]; [exact H|now left]. }
  destruct (nth_in_or_default i ring first) as [H | ->]; [now apply Hsub | now left].
Qed.

Lemma pairs_in_polygon :
  Forall (fun pr => In (fst pr) pts /\ In (snd pr) pts) prs.
Proof.
  unfold spec_pairs. apply Forall_map, Forall_forall.
  intros i _. cbn [fst snd]. split; apply ring_vertex_in_polygon.
Qed.

Lemma flat_lng (p1 p2 : Coord Q) :
  lng p1 == lng first -> lng p2 == lng first -> cross first p1 p2 == 0.
Proof.
  intros E1 E2. unfold cross. cbn [sub mul exact_number].
  rewrite E1, E2. ring.
Qed.

Lemma flat_lat (p1 p2 : Coord Q) :
  lat p1 == lat first -> lat p2 == lat first -> cross first p1 p2 == 0.
Proof.
  intros E1 E2. unfold cross. cbn [sub mul exact_number].
  rewrite E1, E2. ring.
Qed.

Lemma ring_sums_exact :
  area (ring_sums ring first) = fold_area first prs 0
  /\ lngSum (ring_sums ring first) = fold_term first lng prs 0
  /\ latSum (ring_sums ring first) = fold_term first lat prs 0.
Proof.
  unfold ring_sums.
  rewrite fold_step_area, fold_step_lngSum, fold_step_latSum.
  repeat split.
Qed.

Variable sg : Q.
Hypothesis Hsg : sg == 1 \/ sg == -1.
Hypothesis Horiented : Forall (fun pr => 0 <= sg * cross first (fst pr) (snd pr)) prs.
Hypothesis Harea : ~ area (ring_sums ring first) == 0.

Lemma axis_inside (x : Coord Q -> Q) :
  (forall p1 p2, x p1 == x first -> x p2 == x first -> cross first p1 p2 == 0) ->
  Exact.Math_min (map x pts)
  < fold_term first x prs 0 / (fold_area first prs 0 * 3) + x first
  /\ fold_term first x prs 0 / (fold_area first prs 0 * 3) + x first
     < Exact.Math_max (map x pts).
Proof.
  intros Hflat.
  set (lo := Exact.Math_min (map x pts)). set (hi := Exact.Math_max (map x pts)).
  assert (Hin : forall p, In p pts -> inside lo hi x p).
  { intros p Hp. split; [apply Math_min_lower | apply Math_max_upper];
      now apply in_map. }
  apply (bounded_quotient first lo hi sg x Hsg).
  - apply (bounded_fold first lo hi sg x Hflat).
    + apply Hin. now left.
    + exact Hsg.
    + pose proof pairs_in_polygon as Hp.
      rewrite Forall_forall in *. intros pr Hpr.
      destruct (Hp pr Hpr) as [Hp1 Hp2].
      repeat split; try (now apply Hin); now apply Horiented.
    + apply bounded_start.
  - destruct ring_sums_exact as (Ea & _). now rewrite <- Ea.
Qed.
End ExactCentroid.




(** * Further properties of the three functions *)

(** ** [get_polygon_centroid]: what it returns and what it leaves *)

Section CentroidCall.
Context {num : Type} {N : JsNumber num}.

(** X1: on a non-empty array the call never throws: every index the loop
    reads is inside the array.  It leaves the caller's elements in place
    and appends nothing or the first vertex. *)
Theorem get_polygon_centroid_never_throws (pts : list (Coord num)) :
  pts <> [] ->
  exists c tail,
    get_polygon_centroid pts = (pts ++ tail, Normal c)
    /\ (tail = [] \/ exists first, nth_error pts 0 = Some first /\ tail = [first]).
Proof.
  destruct pts as [|a l]; [congruence|]. intros _.
  rewrite get_polygon_centroid_cons. unfold spec_ring at 1.
  destruct (is_open a (last (a :: l) a)).
  - eexists. exists [a]. split; [reflexivity|]. right. now exists a.
  - eexists. exists []. rewrite app_nil_r. split; [reflexivity | now left].
Qed.
End CentroidCall.

Lemma get_polygon_centroid_never_throws_witness :
  exists c tail,
    get_polygon_centroid square = (square ++ tail, Normal c)
    /\ (tail = [] \/ exists first, nth_error square 0 = Some first /\ tail = [first]).
Proof.
  apply (get_polygon_centroid_never_throws square). discriminate.
Defined.

(** ** [ndviGen]: how the promise ends *)

Section Outcomes.
Context {num : Type} {N : JsNumber num}.

(** X2: with an accepted key and an empty polygon the run stops at the
    first centroid call, on the property read of [undefined]: only the
    verification and [ee.initialize] have been issued, no image is
    queried, and the promise never settles. *)
Theorem empty_polygon_never_settles
        (ee : collaborator) (devKey : string) (width dateStart dateEnd : num)
        (cs : list ee_call) :
  verify ee devKey = None ->
  ndviGen ee devKey width dateStart dateEnd {| polygon := []; calls := cs |}
  = (Unsettled (TypeError "cannot read property 'lng' of undefined"),
     {| polygon := [];
        calls := cs ++ [ee_authenticateViaPrivateKey devKey; ee_initialize] |}).
Proof.
  intros Hv. rewrite (ndviGen_verified ee devKey width dateStart dateEnd _ Hv).
  cbn [polygon calls]. rewrite runAnalysis_empty. cbn [fst snd settle].
  now rewrite <- app_assoc.
Qed.

Ltac outcome_cases :=
  unfold iff; repeat (first [intro | apply conj]);
  repeat match goal with
         | H : exists _, _ |- _ => destruct H
         | H : _ /\ _ |- _ => destruct H
         | H : _ \/ _ |- _ => destruct H
         end;
  try discriminate; try congruence; eauto.

End Outcomes.


Lemma empty_polygon_never_settles_witness :
  ndviGen sample_service "key" 256%float 0%float 1%float
          {| polygon := []; calls := [] |}
  = (Unsettled (TypeError "cannot read property 'lng' of undefined"),
     {| polygon := [];
        calls := [] ++ [ee_authenticateViaPrivateKey "key"; ee_initialize] |}).
Proof.
  apply (empty_polygon_never_settles sample_service "key"
           256%float 0%float 1%float []).
  reflexivity.
Defined.

(** ** binary64: NaN and zero in the arithmetic of the loop *)

Module F64Edge.

Lemma neq_nan_l (y : float) : F64.neq nan y = true.
Proof.
  unfold F64.neq. rewrite FloatAxioms.eqb_spec, Prim2SF_nan. reflexivity.
Qed.

Lemma nan_coordinate_opens (a z : Coord float) :
  is_nan (lng a) = true \/ is_nan (lat a) = true -> is_open a z = true.
Proof.
  unfold is_open. cbn [neq float_number].
  intros [H|H]; apply is_nan_true in H; rewrite H, neq_nan_l;
    [reflexivity | apply orb_true_r].
Qed.

Lemma max_step_nan_r (h : float) : F64.max_step h nan = nan.
Proof.
  unfold F64.max_step. change (is_nan nan) with true.
  now rewrite orb_true_r.
Qed.

Lemma min_step_nan_r (h : float) : F64.min_step h nan = nan.
Proof.
  unfold F64.min_step. change (is_nan nan) with true.
  now rewrite orb_true_r.
Qed.

Lemma fold_max_step_nan (l : list float) : fold_left F64.max_step l nan = nan.
Proof. induction l as [|x l IH]; [reflexivity | exact IH]. Qed.

Lemma fold_min_step_nan (l : list float) : fold_left F64.min_step l nan = nan.
Proof. induction l as [|x l IH]; [reflexivity | exact IH]. Qed.

Lemma Math_max_nan (l : list float) : In nan l -> F64.Math_max l = nan.
Proof.
  unfold F64.Math_max. generalize neg_infinity.
  induction l as [|x l IH]; intros h; [intros []|].
  intros [->|H]; cbn [fold_left].
  - rewrite max_step_nan_r. apply fold_max_step_nan.
  - now apply IH.
Qed.

Lemma Math_min_nan (l : list float) : In nan l -> F64.Math_min l = nan.
Proof.
  unfold F64.Math_min. generalize infinity.
  induction l as [|x l IH]; intros h; [intros []|].
  intros [->|H]; cbn [fold_left].
  - rewrite min_step_nan_r. apply fold_min_step_nan.
  - now apply IH.
Qed.

Lemma zero_or_nan_zero : zero_or_nan zero.
Proof. reflexivity. Qed.

Lemma zero_or_nan_sub_self (x : float) : zero_or_nan (x - x).
Proof.
  unfold zero_or_nan. rewrite sub_spec.
  destruct (Prim2SF x) as [s|s| |s m e]; try (destruct s; reflexivity);
    try reflexivity.
  unfold SF64sub, SFsub. rewrite Z.sub_diag. reflexivity.
Qed.

Lemma zero_or_nan_mul_l (x y : float) : zero_or_nan x -> zero_or_nan (x * y).
Proof.
  unfold zero_or_nan. rewrite mul_spec.
  destruct (Prim2SF x) as [s|s| |s m e]; try discriminate; intros _;
    destruct (Prim2SF y) as [t|t| |t n d]; reflexivity.
Qed.

Lemma zero_or_nan_mul_r (x y : float) : zero_or_nan y -> zero_or_nan (x * y).
Proof.
  unfold zero_or_nan. rewrite mul_spec.
  destruct (Prim2SF y) as [t|t| |t n d]; try discriminate; intros _;
    destruct (Prim2SF x) as [s|s| |s m e]; reflexivity.
Qed.

Lemma zero_or_nan_sub (x y : float) :
  zero_or_nan x -> zero_or_nan y -> zero_or_nan (x - y).
Proof.
  unfold zero_or_nan. rewrite sub_spec.
  destruct (Prim2SF x) as [s|s| |s m e]; try discriminate; intros _;
    destruct (Prim2SF y) as [t|t| |t n d]; try discriminate; intros _;
    try reflexivity; destruct s, t; reflexivity.
Qed.

Lemma zero_or_nan_add (x y : float) :
  zero_or_nan x -> zero_or_nan y -> zero_or_nan (x + y).
Proof.
  unfold zero_or_nan. rewrite add_spec.
  destruct (Prim2SF x) as [s|s| |s m e]; try discriminate; intros _;
    destruct (Prim2SF y) as [t|t| |t n d]; try discriminate; intros _;
    try reflexivity; destruct s, t; reflexivity.
Qed.

Lemma zero_or_nan_div (x y : float) :
  zero_or_nan x -> zero_or_nan y -> (x / y)%float = nan.
Proof.
  unfold zero_or_nan. intros Hx Hy.
  apply Prim2SF_inj. rewrite div_spec, Prim2SF_nan.
  destruct (Prim2SF x) as [s|s| |s m e]; try discriminate;
    destruct (Prim2SF y) as [t|t| |t n d]; try discriminate; reflexivity.
Qed.

End F64Edge.
Import F64Edge.

(** ** [get_polygon_centroid] in binary64: NaN and too few vertices *)

Lemma step_nan_sums (a : Coord float) (pr : Coord float * Coord float) :
  step a nan_sums pr = nan_sums.
Proof.
  unfold step, loop_body, nan_sums. cbn [area lngSum latSum add float_number].
  now autorewrite with nan_arith.
Qed.

Lemma fold_step_nan_sums (a : Coord float) (prs : list (Coord float * Coord float)) :
  fold_left (step a) prs nan_sums = nan_sums.
Proof.
  induction prs as [|pr prs IH]; [reflexivity|].
  cbn [fold_left]. now rewrite step_nan_sums.
Qed.

Lemma cross_nan_current (a p1 p2 : Coord float) :
  is_nan (lng p1) = true \/ is_nan (lat p1) = true -> cross a p1 p2 = nan.
Proof.
  unfold cross; cbn [sub mul float_number].
  intros [H|H]; apply is_nan_true in H; rewrite H;
    now autorewrite with nan_arith.
Qed.

Lemma step_nan_current (a p1 p2 : Coord float) (s : sums) :
  is_nan (lng p1) = true \/ is_nan (lat p1) = true ->
  step a s (p1, p2) = nan_sums.
Proof.
  intros H. unfold step, loop_body. cbn [fst snd].
  rewrite (cross_nan_current a p1 p2 H).
  cbn [add mul float_number]. now autorewrite with nan_arith.
Qed.

Lemma centroid_of_nan_sums (a : Coord float) :
  centroid_of_sums a nan_sums = {| lng := nan; lat := nan |}.
Proof.
  unfold centroid_of_sums, nan_sums.
  cbn [area lngSum latSum add mul div float_number].
  now autorewrite with nan_arith.
Qed.

Lemma ring_sums_nan_vertex (ring : list (Coord float)) (a v : Coord float) :
  In v ring ->
  is_nan (lng v) = true \/ is_nan (lat v) = true ->
  ring_sums ring a = nan_sums.
Proof.
  intros Hin Hv.
  destruct (In_nth ring v a Hin) as (i & Hi & Hnth).
  unfold ring_sums.
  replace (length ring) with (i + S (length ring - S i)) at 1 by lia.
  rewrite seq_app, map_app, fold_left_app. cbn [seq map fold_left Nat.add].
  change (pair_at ring a i)
    with (nth i ring a, nth ((i + length ring - 1) mod length ring) ring a).
  rewrite Hnth, step_nan_current by assumption.
  apply fold_step_nan_sums.
Qed.

(** X4: a NaN coordinate in any vertex makes both coordinates of the
    centroid NaN; nothing is thrown. *)
Theorem nan_vertex_gives_nan_centroid (pts : list (Coord float)) (v : Coord float) :
  In v pts ->
  is_nan (lng v) = true \/ is_nan (lat v) = true ->
  snd (get_polygon_centroid pts) = Normal {| lng := nan; lat := nan |}.
Proof.
  intros Hin Hv. destruct pts as [|a l]; [destruct Hin|].
  rewrite get_polygon_centroid_cons. cbn [snd].
  rewrite (ring_sums_nan_vertex _ a v); [now rewrite centroid_of_nan_sums | | exact Hv].
  unfold spec_ring. destruct (is_open _ _); [apply in_or_app; now left | exact Hin].
Qed.

Lemma nan_vertex_gives_nan_centroid_witness :
  snd (get_polygon_centroid [pt 0 0; {| lng := nan; lat := 1%float |}; pt 1 0])
  = Normal {| lng := nan; lat := nan |}.
Proof.
  apply (nan_vertex_gives_nan_centroid _ {| lng := nan; lat := 1%float |}).
  - right. now left.
  - now left.
Defined.

Lemma cross_anchor_current (a p : Coord float) : zero_or_nan (cross a a p).
Proof.
  unfold cross; cbn [sub mul float_number].
  apply zero_or_nan_sub;
    [apply zero_or_nan_mul_l | apply zero_or_nan_mul_r];
    apply zero_or_nan_sub_self.
Qed.

Lemma cross_anchor_previous (a p : Coord float) : zero_or_nan (cross a p a).
Proof.
  unfold cross; cbn [sub mul float_number].
  apply zero_or_nan_sub;
    [apply zero_or_nan_mul_r | apply zero_or_nan_mul_l];
    apply zero_or_nan_sub_self.
Qed.

Lemma step_zero_or_nan (a : Coord float) (s : sums) (pr : Coord float * Coord float) :
  zero_or_nan (cross a (fst pr) (snd pr)) ->
  zero_or_nan_sums s -> zero_or_nan_sums (step a s pr).
Proof.
  intros Hf (Ha & Hx & Hy). unfold zero_or_nan_sums, step, loop_body.
  cbn [area lngSum latSum add mul float_number].
  repeat split; apply zero_or_nan_add; trivial; now apply zero_or_nan_mul_r.
Qed.

Lemma fold_step_zero_or_nan (a : Coord float) (prs : list (Coord float * Coord float)) :
  Forall (fun pr => zero_or_nan (cross a (fst pr) (snd pr))) prs ->
  forall s, zero_or_nan_sums s -> zero_or_nan_sums (fold_left (step a) prs s).
Proof.
  induction 1 as [|pr prs Hpr _ IH]; intros s Hs; [exact Hs|].
  cbn [fold_left]. apply IH. now apply step_zero_or_nan.
Qed.

Lemma centroid_of_zero_or_nan_sums (a : Coord float) (s : sums) :
  zero_or_nan_sums s ->
  centroid_of_sums a s = {| lng := nan; lat := nan |}.
Proof.
  intros (Ha & Hx & Hy). unfold centroid_of_sums.
  cbn [add mul div float_number].
  rewrite !zero_or_nan_div; trivial; try now apply zero_or_nan_mul_l.
  now autorewrite with nan_arith.
Qed.

(** X5: the function does not ask for three vertices.  On one or two
    vertices every cross term is a zero or NaN, the area with them, and
    the call returns (NaN, NaN) without throwing. *)
Theorem too_few_vertices_give_nan_centroid (pts : list (Coord float)) :
  1 <= length pts <= 2 ->
  snd (get_polygon_centroid pts) = Normal {| lng := nan; lat := nan |}.
Proof.
  intros Hlen.
  destruct pts as [|a [|b [|c l]]]; cbn [length] in Hlen; try lia;
    rewrite get_polygon_centroid_cons; cbn [snd]; f_equal;
    apply centroid_of_zero_or_nan_sums;
    unfold spec_ring; destruct (is_open _ _);
    apply fold_step_zero_or_nan;
    try (repeat split; apply zero_or_nan_zero);
    cbn [map seq length app]; repeat constructor;
    repeat match goal with
           | |- context [pair_at ?r ?d ?i] =>
               let v := eval cbv in (pair_at r d i) in
               change (pair_at r d i) with v
           end;
    cbn [fst snd];
    auto using cross_anchor_current, cross_anchor_previous.
Qed.

Lemma too_few_vertices_give_nan_centroid_witness :
  snd (get_polygon_centroid [pt 0 0; pt 3 4]) = Normal {| lng := nan; lat := nan |}.
Proof.
  apply too_few_vertices_give_nan_centroid. cbn. lia.
Defined.

(** ** Repeated calls on one array *)

Lemma call_leaves_closure (pts : list (Coord float)) :
  fst (get_polygon_centroid pts) = closure pts.
Proof.
  destruct pts as [|a l]; [reflexivity|].
  now rewrite get_polygon_centroid_cons, closure_cons.
Qed.

Lemma closure_stable (a : Coord float) (l : list (Coord float)) :
  is_open a a = false -> closure (closure (a :: l)) = closure (a :: l).
Proof.
  intros Ha. rewrite (closure_head a l), closure_cons.
  rewrite <- (closure_head a l), closure_cons.
  now apply spec_ring_closed.
Qed.

Lemma closure_grows (a : Coord float) (l : list (Coord float)) :
  is_nan (lng a) = true \/ is_nan (lat a) = true ->
  closure (a :: l) = a :: (l ++ [a]).
Proof.
  intros Ha. rewrite closure_cons. unfold spec_ring.
  now rewrite nan_coordinate_opens.
Qed.

(** X6: calls that share one array.  When the first vertex holds numbers,
    the first call closes the array and every later call leaves it as it
    is.  When a coordinate of the first vertex is NaN, the test of line
    236 never finds the ring closed and every call appends one more
    copy. *)
Theorem repeated_calls_on_one_array (pts : list (Coord float)) (first : Coord float) :
  nth_error pts 0 = Some first ->
  let after n := Nat.iter n (fun q => fst (get_polygon_centroid q)) pts in
  (number (lng first) -> number (lat first) ->
   forall n, 1 <= n -> after n = closure pts)
  /\ (is_nan (lng first) = true \/ is_nan (lat first) = true ->
      forall n, length (after n) = length pts + n).
Proof.
  intros Hf after. destruct pts as [|a l]; [discriminate|].
  cbn [nth_error] in Hf. injection Hf as ->. split.
  - intros Hx Hy.
    assert (Hclosed : is_open first first = false).
    { unfold is_open. cbn [neq float_number].
      unfold number, is_nan in Hx, Hy. unfold F64.neq. now rewrite Hx, Hy. }
    induction n as [|n IH]; [lia|]. intros _.
    unfold after in *. rewrite Nat.iter_succ, call_leaves_closure.
    destruct n as [|n]; [reflexivity|].
    rewrite IH by lia. now apply closure_stable.
  - intros Hnan n.
    assert (H : exists t, after n = first :: t /\ length t = length l + n).
    { induction n as [|n (t & E & Ht)].
      - exists l. split; [reflexivity | lia].
      - unfold after in *. rewrite Nat.iter_succ, call_leaves_closure, E.
        rewrite closure_grows by assumption.
        eexists. split; [reflexivity|]. rewrite length_app. cbn. lia. }
    destruct H as (t & E & Ht). rewrite E. cbn [length]. lia.
Qed.

Lemma repeated_calls_on_one_array_witness :
  Nat.iter 3 (fun q => fst (get_polygon_centroid q)) square = closure square.
Proof.
  apply (proj1 (repeated_calls_on_one_array square (pt 0 0) eq_refl));
    try reflexivity. lia.
Defined.

(** ** [runAnalysis] in binary64: the box, NaN and flat polygons *)

(** X7: in the record of a completed run on a polygon of numbers, every
    vertex of the caller's polygon lies between the second corner of
    [bounds] and the first, on both axes. *)
Theorem bounds_contain_every_vertex
        (ee : collaborator) (targetWidth dateStart dateEnd : float)
        (pts : list (Coord float)) (cs : list ee_call)
        (r : result) (w' : world) :
  runAnalysis ee targetWidth dateStart dateEnd {| polygon := pts; calls := cs |}
  = (Normal r, w') ->
  Forall (fun c => number (lng c) /\ number (lat c)) pts ->
  exists hi lo,
    bounds r = [hi; lo]
    /\ forall v, In v pts ->
                 (lng lo <=? lng v)%float = true /\ (lng v <=? lng hi)%float = true
                 /\ (lat lo <=? lat v)%float = true /\ (lat v <=? lat hi)%float = true.
Proof.
  intros Hrun Hnum.
  destruct pts as [|a l].
  { rewrite runAnalysis_empty in Hrun. discriminate. }
  destruct (runAnalysis_binary64 ee targetWidth dateStart dateEnd (a :: l) a cs eq_refl)
    as (_ & _ & Hr).
  rewrite Hrun in Hr. cbn [fst] in Hr.
  destruct (selected ee dateStart dateEnd) as [props|]; [|discriminate].
  injection Hr as ->. cbn [bounds result_of].
  eexists. eexists. split; [reflexivity|].
  cbn [lng lat]. unfold derive. cbn [maxLng minLng maxLat minLat].
  assert (Hlng : Forall number (map lng (a :: l))).
  { apply Forall_map. eapply Forall_impl; [|exact Hnum]. now intros c [H _]. }
  assert (Hlat : Forall number (map lat (a :: l))).
  { apply Forall_map. eapply Forall_impl; [|exact Hnum]. now intros c [_ H]. }
  intros v Hv.
  assert (Hne : forall f : Coord float -> float, map f (a :: l) <> [])
    by (intros f; cbn; discriminate).
  pose proof (Math_max_greatest _ (Hne lng) Hlng) as [_ Hxmax].
  pose proof (Math_min_least _ (Hne lng) Hlng) as [_ Hxmin].
  pose proof (Math_max_greatest _ (Hne lat) Hlat) as [_ Hymax].
  pose proof (Math_min_least _ (Hne lat) Hlat) as [_ Hymin].
  repeat split;
    [apply Hxmin | apply Hxmax | apply Hymin | apply Hymax]; now apply in_map.
Qed.

Lemma bounds_contain_every_vertex_witness :
  exists hi lo,
    bounds (result_of sample_service (derive square 256%float)
                      {| lng := 1%float; lat := 1%float |}
                      {| system_time_start := 1%float; system_time_end := 2%float;
                         system_index := "20200101" |}) = [hi; lo]
    /\ forall v, In v square ->
                 (lng lo <=? lng v)%float = true /\ (lng v <=? lng hi)%float = true
                 /\ (lat lo <=? lat v)%float = true /\ (lat v <=? lat hi)%float = true.
Proof.
  assert (Hrun : exists w',
             runAnalysis sample_service 256%float 0%float 1%float
                         {| polygon := square; calls := [] |}
             = (Normal (result_of sample_service (derive square 256%float)
                                  {| lng := 1%float; lat := 1%float |}
                                  {| system_time_start := 1%float;
                                     system_time_end := 2%float;
                                     system_index := "20200101" |}), w')).
  { eexists. vm_compute. reflexivity. }
  destruct Hrun as (w' & Hrun).
  apply (bounds_contain_every_vertex sample_service 256%float 0%float 1%float
           square [] _ w' Hrun).
  repeat constructor.
Defined.

Lemma derive_nan_height (pts : list (Coord float)) (targetWidth : float)
      (v : Coord float) :
  In v pts ->
  is_nan (lng v) = true \/ is_nan (lat v) = true ->
  dimensionLat (derive pts targetWidth) = nan.
Proof.
  intros Hin Hv. unfold derive.
  cbn [dimensionLat sub mul div Math_max Math_min Math_round float_number].
  destruct Hv as [H|H]; apply is_nan_true in H.
  - assert (Hm : In nan (map lng pts)) by (rewrite <- H; now apply in_map).
    rewrite (Math_max_nan _ Hm). now autorewrite with nan_arith.
  - assert (Hm : In nan (map lat pts)) by (rewrite <- H; now apply in_map).
    rewrite (Math_max_nan _ Hm). now autorewrite with nan_arith.
Qed.

(** X8: a NaN coordinate in any vertex does not stop a run.  The record
    of the completed run has height NaN and centroid (NaN, NaN), and
    [getThumbURL] has been called with that height. *)
Theorem nan_vertex_completes_with_nan
        (ee : collaborator) (targetWidth dateStart dateEnd : float)
        (pts : list (Coord float)) (cs : list ee_call) (v : Coord float)
        (props : image_properties) :
  In v pts ->
  is_nan (lng v) = true \/ is_nan (lat v) = true ->
  selected ee dateStart dateEnd = Some props ->
  exists r w',
    runAnalysis ee targetWidth dateStart dateEnd {| polygon := pts; calls := cs |}
    = (Normal r, w')
    /\ height r = nan
    /\ centroid r = {| lng := nan; lat := nan |}
    /\ In (ee_getThumbURL [width r; nan]) (calls w').
Proof.
  intros Hin Hv Hsel.
  destruct pts as [|a l]; [destruct Hin|].
  destruct (runAnalysis_binary64 ee targetWidth dateStart dateEnd (a :: l) a cs eq_refl)
    as (Hc & Hw & Hr).
  rewrite Hsel in Hw, Hr.
  assert (Hnan : centroid_of_sums a (ring_sums (closure (a :: l)) a)
                 = {| lng := nan; lat := nan |}).
  { rewrite (ring_sums_nan_vertex _ a v); [apply centroid_of_nan_sums | | exact Hv].
    rewrite closure_cons. unfold spec_ring.
    destruct (is_open _ _); [apply in_or_app; now left | exact Hin]. }
  eexists. eexists. split.
  { rewrite (surjective_pairing (runAnalysis _ _ _ _ _)), Hr, Hw. reflexivity. }
  cbn [height width centroid result_of calls].
  rewrite (derive_nan_height (a :: l) targetWidth v Hin Hv).
  repeat split; trivial.
  apply in_or_app. right. unfold run_calls. apply in_or_app. right.
  rewrite (derive_nan_height (a :: l) targetWidth v Hin Hv). cbn. auto.
Qed.

Lemma nan_vertex_completes_with_nan_witness :
  exists r w',
    runAnalysis sample_service 256%float 0%float 1%float
                {| polygon := [pt 0 0; {| lng := nan; lat := 1%float |}; pt 1 0];
                   calls := [] |}
    = (Normal r, w')
    /\ height r = nan
    /\ centroid r = {| lng := nan; lat := nan |}
    /\ In (ee_getThumbURL [width r; nan]) (calls w').
Proof.
  apply (nan_vertex_completes_with_nan sample_service 256%float 0%float 1%float
           _ [] {| lng := nan; lat := 1%float |}
           {| system_time_start := 1%float; system_time_end := 2%float;
              system_index := "20200101" |}).
  - right. now left.
  - now left.
  - reflexivity.
Defined.

Lemma round_of_zero_quotient (w dlat dlng : float) :
  is_finite w = true ->
  F64.neq dlat zero = false ->
  F64.neq dlng zero = true ->
  number dlng ->
  exists s, Prim2SF (F64.Math_round ((w * dlat) / dlng)) = S754_zero s.
Proof.
  intros Hw Hlat Hlng Hnum.
  destruct (neq_zero_false dlat Hlat) as [t Et].
  rewrite is_finite_spec in Hw. apply number_spec in Hnum.
  unfold F64.neq in Hlng. rewrite FloatAxioms.eqb_spec in Hlng.
  change (Prim2SF zero) with (S754_zero false) in Hlng.
  assert (Hq : exists s, Prim2SF ((w * dlat) / dlng) = S754_zero s).
  { rewrite div_spec, mul_spec, Et.
    destruct (Prim2SF w) as [s|s| |s m e]; try discriminate;
      destruct (Prim2SF dlng) as [u|u| |u n d]; try discriminate;
      try congruence; eexists; reflexivity. }
  destruct Hq as [s Hq]. exists s.
  unfold F64.Math_round. now rewrite Hq.
Qed.

(** X9: a polygon with no latitude extent is not refused either.  For a
    finite target width and a longitude extent that is a number other than
    zero, the derived height is zero. *)
Theorem flat_polygon_has_zero_height (pts : list (Coord float)) (targetWidth : float) :
  let g := derive pts targetWidth in
  is_finite targetWidth = true ->
  (maxLat g - minLat g != lit 0)%js = false ->
  (maxLng g - minLng g != lit 0)%js = true ->
  number (maxLng g - minLng g)%js ->
  (dimensionLat g != lit 0)%js = false.
Proof.
  intros g Hw Hlat Hlng Hnum.
  destruct (round_of_zero_quotient targetWidth _ _ Hw Hlat Hlng Hnum) as [s Hs].
  unfold g, derive. cbn [dimensionLat maxLng minLng maxLat minLat].
  cbn [neq lit float_number F64.of_Z]. unfold F64.neq.
  rewrite FloatAxioms.eqb_spec.
  cbn [Math_round sub mul div float_number] in *.
  unfold g, derive in Hs. cbn [maxLng minLng maxLat minLat] in Hs.
  rewrite Hs. reflexivity.
Qed.

Lemma flat_polygon_has_zero_height_witness :
  (dimensionLat (derive [pt 0 1; pt 2 1; pt 5 1] 256%float) != lit 0)%js = false.
Proof.
  apply (flat_polygon_has_zero_height [pt 0 1; pt 2 1; pt 5 1] 256%float);
    reflexivity.
Defined.

(** ** Exact arithmetic: triangles and translations *)

Section ExactTriangle.
Local Open Scope Q_scope.

Lemma is_open_false_exact (a z : Coord Q) :
  is_open a z = false -> lng a == lng z /\ lat a == lat z.
Proof.
  unfold is_open. cbn [neq exact_number]. unfold Exact.neq.
  intros H. apply orb_false_iff in H. destruct H as [H1 H2].
  apply negb_false_iff in H1, H2. split; now apply Qeq_bool_iff.
Qed.

End ExactTriangle.


Section ExactTranslation.
Local Open Scope Q_scope.
Variable t : Coord Q.

Lemma is_open_translate (a z : Coord Q) :
  is_open (translate t a) (translate t z) = is_open a z.
Proof.
  assert (H : forall x y u : Q, Qeq_bool (x + u) (y + u) = Qeq_bool x y).
  { intros x y u. destruct (Qeq_bool x y) eqn:E.
    - apply Qeq_bool_iff in E. apply Qeq_bool_iff. now rewrite E.
    - destruct (Qeq_bool (x + u) (y + u)) eqn:E'; [|reflexivity].
      apply Qeq_bool_iff in E'. apply Qplus_inj_r in E'.
      apply Qeq_bool_iff in E'. congruence. }
  unfold is_open, translate. cbn [neq exact_number lng lat]. unfold Exact.neq.
  now rewrite !H.
Qed.

Lemma last_translate (l : list (Coord Q)) (d : Coord Q) :
  last (map (translate t) l) (translate t d) = translate t (last l d).
Proof.
  induction l as [|p l IH]; [reflexivity|].
  destruct l as [|q l]; [reflexivity|]. exact IH.
Qed.

Lemma spec_ring_translate (pts : list (Coord Q)) (a : Coord Q) :
  spec_ring (map (translate t) pts) (translate t a)
  = map (translate t) (spec_ring pts a).
Proof.
  unfold spec_ring. rewrite last_translate, is_open_translate.
  destruct (is_open a (last pts a)); [|reflexivity].
  now rewrite map_app.
Qed.

Lemma pair_at_translate (ring : list (Coord Q)) (a : Coord Q) (i : nat) :
  pair_at (map (translate t) ring) (translate t a) i
  = (translate t (fst (pair_at ring a i)), translate t (snd (pair_at ring a i))).
Proof.
  unfold pair_at. cbn [fst snd]. now rewrite length_map, !map_nth.
Qed.

Lemma cross_translate (a p1 p2 : Coord Q) :
  cross (translate t a) (translate t p1) (translate t p2) == cross a p1 p2.
Proof. unfold cross, translate. cbn [sub mul exact_number lng lat]. ring. Qed.

Lemma step_translate (a : Coord Q) (s s' : sums) (pr : Coord Q * Coord Q) :
  area s' == area s /\ lngSum s' == lngSum s /\ latSum s' == latSum s ->
  let u := step a s pr in
  let u' := step (translate t a) s' (translate t (fst pr), translate t (snd pr)) in
  area u' == area u /\ lngSum u' == lngSum u /\ latSum u' == latSum u.
Proof.
  intros (Ha & Hx & Hy). unfold step, loop_body. cbn [fst snd area lngSum latSum].
  cbn [add mul sub lit exact_number]. rewrite cross_translate, Ha, Hx, Hy.
  unfold translate. cbn [lng lat]. repeat split; ring.
Qed.

Lemma fold_step_translate (ring : list (Coord Q)) (a : Coord Q) (idx : list nat) :
  forall s s',
    area s' == area s /\ lngSum s' == lngSum s /\ latSum s' == latSum s ->
    let u := fold_left (step a) (map (pair_at ring a) idx) s in
    let u' := fold_left (step (translate t a))
                        (map (pair_at (map (translate t) ring) (translate t a)) idx) s' in
    area u' == area u /\ lngSum u' == lngSum u /\ latSum u' == latSum u.
Proof.
  induction idx as [|i idx IH]; intros s s' H; [exact H|].
  cbn [map fold_left]. apply IH. rewrite pair_at_translate.
  now apply step_translate.
Qed.

End ExactTranslation.

